(** * Verification of the batch translation client of subtitle-translator

    Shallow embedding of [TranslatorClient] (src/unnamed/part_004):
    the model resolver [createModel], the response parser
    [parseTranslationResponse], the per-batch call [translateSubtitleBatch],
    the retrying batch processor [processBatchWithRetry] and the batch
    scheduler [translateBatch].

    JavaScript strings are sequences of UTF-16 code units; a code unit is
    modelled as [N] and a string as [list N]. *)

From Stdlib Require Import NArith Strings.String Strings.Ascii Sorting.Permutation.
From stdpp Require Import base list.

Abbreviation jstring := (list N).

(** String literals (ASCII) as code-unit sequences. *)
Definition js (s : string) : jstring :=
  map N_of_ascii (list_ascii_of_string s).

(** ** Character classes of the JavaScript regular expressions *)

(** [\d] (no [u] flag): the ASCII digits. *)
Definition is_digit (c : N) : bool := (48 <=? c)%N && (c <=? 57)%N.

(** LineTerminator: what [.] does not match and where [^]/[$] (flag m) hold. *)
Definition is_line_terminator (c : N) : bool :=
  (c =? 10)%N || (c =? 13)%N || (c =? 8232)%N || (c =? 8233)%N.

(** [\s] and [String.prototype.trim]: WhiteSpace and LineTerminator. *)
Definition is_ws (c : N) : bool :=
  (c =? 9)%N || (c =? 10)%N || (c =? 11)%N || (c =? 12)%N || (c =? 13)%N
  || (c =? 32)%N || (c =? 160)%N || (c =? 5760)%N
  || ((8192 <=? c)%N && (c <=? 8202)%N)
  || (c =? 8232)%N || (c =? 8233)%N || (c =? 8239)%N || (c =? 8287)%N
  || (c =? 12288)%N || (c =? 65279)%N.

(** Longest prefix whose characters satisfy [p], and the rest. *)
Fixpoint span (p : N -> bool) (s : jstring) : jstring * jstring :=
  match s with
  | [] => ([], [])
  | c :: s' => if p c then let '(a, b) := span p s' in (c :: a, b) else ([], s)
  end.

Definition drop_ws (s : jstring) : jstring := snd (span is_ws s).

(** [s.trim()] *)
Definition js_trim (s : jstring) : jstring := rev (drop_ws (rev (drop_ws s))).

(** [s.split(sep)] for a one-code-unit separator. *)
Fixpoint js_split (sep : N) (s : jstring) : list jstring :=
  match s with
  | [] => [[]]
  | c :: s' =>
      if (c =? sep)%N then [] :: js_split sep s'
      else match js_split sep s' with
           | p :: ps => (c :: p) :: ps
           | [] => [[c]]
           end
  end.

(** [a || b] where [a] is a possibly undefined string: [undefined] and
    [""] are falsy. *)
Definition js_or (a : option jstring) (b : jstring) : jstring :=
  match a with
  | Some (c :: s) => c :: s
  | _ => b
  end.

(** ** The regular expression [/^\d+\.\s*(.+)$/gm] *)

(** [(.+)$] with flag m: the greedy [.+] takes the whole run of
    non-terminators, after which [$] always holds. *)
Definition dot_plus_eol (s : jstring) : option (jstring * jstring) :=
  match s with
  | c :: _ =>
      if is_line_terminator c then None
      else Some (span (fun c => negb (is_line_terminator c)) s)
  | [] => None
  end.

(** [\s*] is greedy: it first takes all [k = length w] whitespace characters
    [w] and gives them back one at a time until [(.+)$] matches. *)
Fixpoint ws_backtrack (k : nat) (w rest : jstring) : option (nat * (jstring * jstring)) :=
  match dot_plus_eol (drop k w ++ rest) with
  | Some mr => Some (k, mr)
  | None =>
      match k with
      | 0 => None
      | S k' => ws_backtrack k' w rest
      end
  end.

(** One match attempt at a position where [^] holds: the matched text and
    what follows.  Giving back digits of [\d+] never helps, as a digit is not
    the [.] that must follow. *)
Definition numbered_line_at (s : jstring) : option (jstring * jstring) :=
  let '(ds, t) := span is_digit s in
  match ds, t with
  | _ :: _, c :: t' =>
      if (c =? 46)%N then
        let '(w, rest) := span is_ws t' in
        match ws_backtrack (length w) w rest with
        | Some (k, (m, r)) => Some (ds ++ c :: take k w ++ m, r)
        | None => None
        end
      else None
  | _, _ => None
  end.

(** The global scan of [String.prototype.match] with flags g and m:
    [bol] says whether [^] holds at the current position.  After a match the
    scan resumes right after it (where the previous character, the last one
    of [.+], is not a terminator).  [fuel] bounds the number of steps. *)
Fixpoint scan_numbered (fuel : nat) (bol : bool) (s : jstring) : list jstring :=
  match fuel with
  | 0 => []
  | S f =>
      match s with
      | [] => []
      | c :: s' =>
          match (if bol then numbered_line_at s else None) with
          | Some (m, r) => m :: scan_numbered f false r
          | None => scan_numbered f (is_line_terminator c) s'
          end
      end
  end.

(** [response.match(/^\d+\.\s*(.+)$/gm)]: [None] stands for [null]. *)
Definition match_numbered (response : jstring) : option (list jstring) :=
  match scan_numbered (length response) true response with
  | [] => None
  | ms => Some ms
  end.

(** [m.replace(/^\d+\.\s*/, '')] (no flag: only at position 0). *)
Definition strip_numbering (m : jstring) : jstring :=
  let '(ds, t) := span is_digit m in
  match ds, t with
  | _ :: _, c :: t' => if (c =? 46)%N then drop_ws t' else m
  | _, _ => m
  end.

(** [line.match(/^\d+\.?\s*$/)] (no flag: the whole line).  The optional
    [\.] is greedy; leaving a [.] unmatched never helps, as [.] is not
    whitespace. *)
Definition is_bare_numeral (line : jstring) : bool :=
  let '(ds, t) := span is_digit line in
  match ds with
  | [] => false
  | _ :: _ =>
      let t' := match t with
                | c :: t'' => if (c =? 46)%N then t'' else t
                | [] => t
                end in
      forallb is_ws t'
  end.

(** ** parseTranslationResponse *)

Definition parse_error_marker : jstring :=
  js "[Translation error: Unable to parse response]".

(** Strategy 2's lines: split on ['\n'], trimmed, blank and bare-numeral
    lines dropped. *)
Definition fallback_lines (response : jstring) : list jstring :=
  List.filter (fun line => (0 <? length line) && negb (is_bare_numeral line))
    (map js_trim (js_split 10 response)).

Definition parse_fallback (response : jstring) (expectedCount : nat) : list jstring :=
  let lines := fallback_lines response in
  if expectedCount <=? length lines then take expectedCount lines
  else map (fun i => js_or (lines !! i) parse_error_marker) (seq 0 expectedCount).

Definition parseTranslationResponse (response : jstring) (expectedCount : nat)
    : list jstring :=
  match match_numbered response with
  | Some numberedMatches =>
      if length numberedMatches =? expectedCount
      then map (fun m => js_trim (strip_numbering m)) numberedMatches
      else parse_fallback response expectedCount
  | None => parse_fallback response expectedCount
  end.

(** [String(n)] for a non-negative integer [n]. *)
Fixpoint digits_rev (fuel n : nat) : jstring :=
  match fuel with
  | 0 => []
  | S f => N.of_nat (48 + n mod 10) :: (if n <? 10 then [] else digits_rev f (n / 10))
  end.

Definition js_number (n : nat) : jstring := rev (digits_rev (S n) n).

(** ** Model resolver: createModel *)

Record AIProvider := {
  name : jstring;
  apiKey : jstring;
  baseURL : option jstring;
  models : list jstring;
  isCustom : option bool
}.

Fixpoint is_prefix (p s : jstring) : bool :=
  match p, s with
  | [], _ => true
  | a :: p', b :: s' => (a =? b)%N && is_prefix p' s'
  | _ :: _, [] => false
  end.

(** [s.includes(sub)] *)
Fixpoint includes (s sub : jstring) : bool :=
  is_prefix sub s || match s with [] => false | _ :: s' => includes s' sub end.

(** [provider.baseURL?.includes(sub)]: [undefined] when there is no URL,
    which is falsy. *)
Definition url_includes (url : option jstring) (sub : jstring) : bool :=
  match url with Some u => includes u sub | None => false end.

Definition js_eqb (a b : jstring) : bool := bool_decide (a = b).

(** [provider.isCustom] used as a condition. *)
Definition js_truthy_opt (b : option bool) : bool :=
  match b with Some true => true | _ => false end.

Inductive ProviderFamily := OpenAIFamily | AnthropicFamily | GoogleFamily.

(** The client object built by [createOpenAI] / [createAnthropic] /
    [createGoogleGenerativeAI] applied to the model name. *)
Record ModelClient := {
  client_family : ProviderFamily;
  client_apiKey : jstring;
  client_baseURL : option jstring;
  client_model : jstring
}.

(** [provider.baseURL || undefined] *)
Definition client_url (url : option jstring) : option jstring :=
  match url with Some (c :: s) => Some (c :: s) | _ => None end.

(** [createModel]: [inr msg] is a thrown [Error(msg)]. *)
Definition createModel (providerId : jstring) (provider : AIProvider) (modelName : jstring)
    : ModelClient + jstring :=
  let providerType :=
    if js_eqb providerId (js "anthropic")
       || url_includes (baseURL provider) (js "anthropic.com")
    then js "anthropic"
    else if js_eqb providerId (js "google")
            || url_includes (baseURL provider) (js "googleapis.com")
    then js "google"
    else if js_eqb providerId (js "openai")
            || url_includes (baseURL provider) (js "openai.com")
            || js_eqb providerId (js "siliconflow")
            || url_includes (baseURL provider) (js "siliconflow.cn")
            || js_truthy_opt (isCustom provider)
    then js "openai"
    else js "openai" in
  let mk fam := {| client_family := fam; client_apiKey := apiKey provider;
                   client_baseURL := client_url (baseURL provider);
                   client_model := modelName |} in
  if js_eqb providerType (js "openai") then inl (mk OpenAIFamily)
  else if js_eqb providerType (js "anthropic") then inl (mk AnthropicFamily)
  else if js_eqb providerType (js "google") then inl (mk GoogleFamily)
  else inr (js "Unsupported AI provider type: " ++ providerType).

(** ** translateSubtitleBatch *)

(** A value thrown by [generateText]: an [Error] with its [name] and
    [message], or something that is not an [Error]. *)
Inductive Thrown := JsError (errName message : jstring) | NonErrorValue.

(** What the awaited [generateText] call does: resolve with a text or throw.
    The provider is not under src/; its behaviour is an oracle. *)
Inductive GenOutcome := Generated (text : jstring) | GenThrew (e : Thrown).

(** [config.providers]: a [Record<string, AIProvider>]. *)
Abbreviation Providers := (jstring -> option AIProvider).

(** [translateSubtitleBatch]: [inl] is the resolved value, [inr msg] a thrown
    [Error(msg)]. *)
Definition translateSubtitleBatch (providers : Providers) (texts : list jstring)
    (provider model : jstring) (gen : GenOutcome) : list jstring + jstring :=
  match providers provider with
  | None => inr (js "Provider " ++ provider ++ js " not found in configuration")
  | Some providerConfig =>
      match createModel provider providerConfig model with
      | inr msg => inr msg
      | inl _ =>
          match gen with
          | Generated text => inl (parseTranslationResponse (js_trim text) (length texts))
          | GenThrew (JsError nm msg) =>
              if js_eqb nm (js "AbortError") then inr (js "Translation cancelled by user")
              else inr (js "Translation failed: " ++ msg)
          | GenThrew NonErrorValue => inr (js "Translation failed: Unknown error")
          end
      end
  end.

(** ** processBatchWithRetry *)

(** The observable steps of one batch: a model call at a given retry count,
    and a [setTimeout] delay in milliseconds. *)
Inductive BatchEvent := CallModel (retryCount : nat) | Sleep (ms : nat).

(** How the batch ends: the [translatedTexts] of the successful call, or the
    message of the error caught when retries ran out. *)
Inductive BatchEnd := BatchSucceeded (translatedTexts : list jstring) | BatchFailed (message : jstring).

Section Retry.
Variable maxRetries : nat.
(** The outcome of [translateSubtitleBatch] at each retry count. *)
Variable call : nat -> list jstring + jstring.

(** [fuel] bounds the recursion; started at [maxRetries] from retry count
    0 it is never exhausted before [retryCount < maxRetries] fails. *)
Fixpoint retry_loop (fuel retryCount : nat) : list BatchEvent * BatchEnd :=
  match call retryCount with
  | inl translatedTexts => ([CallModel retryCount], BatchSucceeded translatedTexts)
  | inr msg =>
      if retryCount <? maxRetries then
        match fuel with
        | S f =>
            let '(tr, e) := retry_loop f (S retryCount) in
            (CallModel retryCount :: Sleep (2 ^ retryCount * 1000) :: tr, e)
        | 0 => ([CallModel retryCount], BatchFailed msg)
        end
      else ([CallModel retryCount], BatchFailed msg)
  end.

Definition processBatchWithRetry : list BatchEvent * BatchEnd :=
  retry_loop maxRetries 0.
End Retry.

(** ** The scheduler: translateBatch *)

Record TranslationResult := {
  originalText : jstring;
  translatedText : jstring;
  sourceLanguage : jstring;
  targetLanguage : jstring
}.

Record Batch := {
  batch_texts : list jstring;
  startIndex : nat
}.

(** The shared mutable state of one run: the [results] array (a hole is
    [None]), the [failed] index list and the [processedSubtitles] counter. *)
Record RunState := {
  results : list (option TranslationResult);
  failed : list nat;
  processedSubtitles : nat
}.

(** [arr[i] = v] on a JavaScript array: past the end the array grows, with
    holes in between. *)
Definition js_array_set {A} (arr : list (option A)) (i : nat) (v : A) : list (option A) :=
  if i <? length arr then <[i := Some v]> arr
  else arr ++ replicate (i - length arr) None ++ [Some v].

(** [l.slice(i, j)] for [i <= j]. *)
Definition js_slice {A} (l : list A) (i j : nat) : list A := take (j - i) (drop i l).

(** [for (let i = 0; i < texts.length; i += batchSize)]; [fuel] bounds the
    iterations ([texts.length] of them suffice when [batchSize >= 1]). *)
Fixpoint make_batches_from (fuel : nat) (texts : list jstring) (batchSize i : nat) : list Batch :=
  match fuel with
  | 0 => []
  | S f =>
      if i <? length texts then
        {| batch_texts := js_slice texts i (Nat.min (i + batchSize) (length texts));
           startIndex := i |} :: make_batches_from f texts batchSize (i + batchSize)
      else []
  end.

Definition make_batches (texts : list jstring) (batchSize : nat) : list Batch :=
  make_batches_from (length texts) texts batchSize 0.

Definition no_response_marker (i : nat) : jstring :=
  js "[Translation failed: No response for item " ++ js_number (i + 1) ++ js "]".

Definition failure_marker (message : jstring) : jstring :=
  js "[Translation failed: " ++ message ++ js "]".

Section Write.
Variables sourceLang targetLang : jstring.

(** The unit written at position [i] of a successful batch. *)
Definition success_unit (b : Batch) (translatedTexts : list jstring) (i : nat)
    : TranslationResult :=
  {| originalText := nth i (batch_texts b) [];
     translatedText := js_or (translatedTexts !! i) (no_response_marker i);
     sourceLanguage := sourceLang;
     targetLanguage := targetLang |}.

(** The unit written at position [i] of a batch whose retries ran out. *)
Definition failure_unit (b : Batch) (message : jstring) (i : nat) : TranslationResult :=
  {| originalText := nth i (batch_texts b) [];
     translatedText := failure_marker message;
     sourceLanguage := sourceLang;
     targetLanguage := targetLang |}.

(** The synchronous block that ends a batch (no [await] inside it, so it
    runs atomically with respect to the other workers).  The failure loop
    pushes to [failed] and writes [results] in the same iteration; the two
    are independent, so they are written as two loops. *)
Definition finish_batch (b : Batch) (e : BatchEnd) (st : RunState) : RunState :=
  let idx := seq 0 (length (batch_texts b)) in
  match e with
  | BatchSucceeded translatedTexts =>
      {| results := fold_left (fun res i =>
            js_array_set res (startIndex b + i) (success_unit b translatedTexts i))
            idx (results st);
         failed := failed st;
         processedSubtitles := processedSubtitles st + length (batch_texts b) |}
  | BatchFailed message =>
      {| results := fold_left (fun res i =>
            js_array_set res (startIndex b + i) (failure_unit b message i))
            idx (results st);
         failed := failed st ++ map (fun i => startIndex b + i) idx;
         processedSubtitles := processedSubtitles st + length (batch_texts b) |}
  end.
End Write.

Record TranslationConfig := {
  providers : Providers;
  concurrency : nat;
  maxRetries : nat;
  subtitleBatchSize : nat
}.

(** [v || d] on a number. *)
Definition js_or_nat (v d : nat) : nat := if v =? 0 then d else v.

(** The model calls are an oracle [gen j r]: the outcome of [generateText]
    for batch [j] at retry count [r]. *)
Abbreviation Oracle := (nat -> nat -> GenOutcome).

Section Run.
Variable config : TranslationConfig.
Variables texts : list jstring.
Variables sourceLang targetLang provider model : jstring.
Variable gen : Oracle.

Definition eff_concurrency : nat := js_or_nat (concurrency config) 3.
Definition eff_maxRetries : nat := js_or_nat (maxRetries config) 2.
Definition eff_batchSize : nat := js_or_nat (subtitleBatchSize config) 5.

Definition batches : list Batch := make_batches texts eff_batchSize.

(** The whole life of batch [j] in its worker: the events and the end. *)
Definition batch_run (j : nat) (b : Batch) : list BatchEvent * BatchEnd :=
  processBatchWithRetry eff_maxRetries
    (fun r => translateSubtitleBatch (providers config) (batch_texts b) provider model (gen j r)).

(** The worker pool.  [Math.min(concurrency, batches.length)] workers claim
    the batches from a shared cursor, each batch exactly once, and every
    batch's end runs as one atomic block.  [schedule] is the order in which
    the batches end: any permutation of the batch indices, as the timing of
    the model calls decides it. *)
Definition valid_schedule (schedule : list nat) : Prop :=
  Permutation schedule (seq 0 (length batches)).

Definition finish_nth (st : RunState) (j : nat) : RunState :=
  match batches !! j with
  | Some b => finish_batch sourceLang targetLang b (snd (batch_run j b)) st
  | None => st
  end.

Definition initial_state : RunState :=
  {| results := replicate (length texts) None; failed := []; processedSubtitles := 0 |}.

Definition run_translateBatch (schedule : list nat) : RunState :=
  let workers := Nat.min eff_concurrency (length batches) in
  fold_left finish_nth (if workers =? 0 then [] else schedule) initial_state.

(** [translateBatch] resolves with the [results] array. *)
Definition translateBatch (schedule : list nat) : list (option TranslationResult) :=
  results (run_translateBatch schedule).
End Run.


(** The unit a batch with end [e] writes at its position [k]. *)
Definition end_unit (sourceLang targetLang : jstring) (b : Batch) (e : BatchEnd) (k : nat)
    : TranslationResult :=
  match e with
  | BatchSucceeded translatedTexts => success_unit sourceLang targetLang b translatedTexts k
  | BatchFailed message => failure_unit sourceLang targetLang b message k
  end.

(** The response ["1. t1\n2. t2\n...\nn. tn"]: numbered lines joined by
    line feeds. *)
Definition numbered_line (k : nat) (t : jstring) : jstring := js_number k ++ js ". " ++ t.

Fixpoint numbered_response_from (k : nat) (ts : list jstring) : jstring :=
  match ts with
  | [] => []
  | t :: ts' =>
      match ts' with
      | [] => numbered_line k t
      | _ :: _ => numbered_line k t ++ 10%N :: numbered_response_from (S k) ts'
      end
  end.

(** The lines of [numbered_response_from k ts]. *)
Fixpoint numbered_lines_from (k : nat) (ts : list jstring) : list jstring :=
  match ts with
  | [] => []
  | t :: ts' => numbered_line k t :: numbered_lines_from (S k) ts'
  end.

Definition numbered_response (ts : list jstring) : jstring := numbered_response_from 1 ts.

(** A text that fits on one line and is not blank. *)
Definition plain_line (t : jstring) : bool :=
  forallb (fun c => negb (is_line_terminator c)) t && existsb (fun c => negb (is_ws c)) t.

(** A configuration, an input and model behaviours for the concrete runs
    below: [subtitleBatchSize] 2, [concurrency] 2, [maxRetries] unset (0). *)
Definition sample_provider : AIProvider :=
  {| name := js "OpenAI"; apiKey := js "sk-test"; baseURL := None;
     models := [js "gpt-4o-mini"]; isCustom := None |}.

Definition sample_config : TranslationConfig :=
  {| providers := fun p => if js_eqb p (js "openai") then Some sample_provider else None;
     concurrency := 2; maxRetries := 0; subtitleBatchSize := 2 |}.

Definition sample_texts : list jstring := [js "Hello"; js "World"; js "Foo"].

Definition sample_gen : Oracle :=
  fun j _ => match j with
             | 0 => Generated (js "1. HELLO
2. WORLD")
             | _ => Generated (js "1. FOO")
             end.

Definition aborted_gen : Oracle :=
  fun _ _ => GenThrew (JsError (js "AbortError") (js "This operation was aborted")).

(** Batch 0's first call times out and its retry succeeds; batch 1's first
    call succeeds. *)
Definition flaky_gen : Oracle :=
  fun j r => match j, r with
             | 0, 0 => GenThrew (JsError (js "Error") (js "timeout"))
             | 0, _ => Generated (js "1. HELLO
2. WORLD")
             | _, _ => Generated (js "1. FOO")
             end.

(** ** The prompt: createSubtitlePrompt *)

(** [arr.join(sep)] *)
Fixpoint js_join (sep : jstring) (l : list jstring) : jstring :=
  match l with
  | [] => []
  | [x] => x
  | x :: l' => x ++ sep ++ js_join sep l'
  end.

(** [texts.map((text, index) => `${index + 1}. ${text}`).join('\n')] *)
Definition createSubtitlePrompt_textList (texts : list jstring) : jstring :=
  js_join [10%N] (imap (fun index text => js_number (index + 1) ++ js ". " ++ text) texts).

Definition createSubtitlePrompt (texts : list jstring) (sourceLanguage targetLanguage : jstring)
    : jstring :=
  let textList := createSubtitlePrompt_textList texts in
  js "You are a professional subtitle translator. Translate the following "
  ++ js_number (length texts) ++ js " subtitle entries from " ++ sourceLanguage
  ++ js " to " ++ targetLanguage
  ++ js ".

IMPORTANT INSTRUCTIONS:
- Maintain the exact same number of entries in your response
- Preserve subtitle timing and formatting conventions
- Keep translations concise and readable for subtitles
- Maintain natural dialogue flow and context
- Use appropriate cultural adaptations when necessary
- Number each translation entry exactly as shown below

Subtitle entries to translate:
" ++ textList ++ js "

Provide the translations in the same numbered format:".

(** ** translateSingle and testConnection *)

Record TranslationRequest := {
  request_text : jstring;
  request_sourceLanguage : jstring;
  request_targetLanguage : jstring;
  request_provider : jstring;
  request_model : jstring
}.

(** [translateSingle]: [inl] is the resolved value, [inr msg] a thrown
    [Error(msg)].  The prompt is what [generateText] receives; its answer is
    the oracle [gen]. *)
Definition translateSingle (providers : Providers) (request : TranslationRequest)
    (gen : GenOutcome) : TranslationResult + jstring :=
  match providers (request_provider request) with
  | None => inr (js "Provider " ++ request_provider request ++ js " not found in configuration")
  | Some provider =>
      match createModel (request_provider request) provider (request_model request) with
      | inr msg => inr msg
      | inl _ =>
          let prompt := createSubtitlePrompt [request_text request]
                          (request_sourceLanguage request) (request_targetLanguage request) in
          match gen with
          | Generated text =>
              let translatedText :=
                js_or (parseTranslationResponse (js_trim text) 1 !! 0) (js_trim text) in
              inl {| originalText := request_text request;
                     translatedText := translatedText;
                     sourceLanguage := request_sourceLanguage request;
                     targetLanguage := request_targetLanguage request |}
          | GenThrew (JsError nm msg) =>
              if js_eqb nm (js "AbortError") then inr (js "Translation cancelled by user")
              else inr (js "Translation failed: " ++ msg)
          | GenThrew NonErrorValue => inr (js "Translation failed: Unknown error")
          end
      end
  end.

(** The fixed request of [testConnection]. *)
Definition test_request (provider model : jstring) : TranslationRequest :=
  {| request_text := js "Hello, world!"; request_sourceLanguage := js "eng";
     request_targetLanguage := js "spa"; request_provider := provider;
     request_model := model |}.

(** [testConnection]: the pair [(success, error)], [None] for an absent
    [error] field.  Every value [translateSingle] throws is an [Error]. *)
Definition testConnection (providers : Providers) (provider model : jstring) (gen : GenOutcome)
    : bool * option jstring :=
  match translateSingle providers (test_request provider model) gen with
  | inl _ => (true, None)
  | inr msg => (false, Some msg)
  end.

(** ** estimateTokens *)

(** [Math.ceil(n / 4)] for a non-negative integer [n]. *)
Definition ceil_div4 (n : nat) : nat := n / 4 + (if n mod 4 =? 0 then 0 else 1).

Definition estimateTokens (texts : list jstring) : nat :=
  let inputTokens := fold_left (fun sum text => sum + ceil_div4 (length text)) texts 0 in
  let outputTokens := inputTokens in
  let promptTokens := length texts * 50 in
  inputTokens + outputTokens + promptTokens.

(** ** validateRequest and the configuration check it calls *)

(** [configManager.isProviderConfigured(providerId)]: [!!(provider?.apiKey?.trim())]. *)
Definition isProviderConfigured (providers : Providers) (providerId : jstring) : bool :=
  match providers providerId with
  | Some provider => match js_trim (apiKey provider) with [] => false | _ :: _ => true end
  | None => false
  end.

(** [!s] on a string: the empty string is falsy. *)
Definition js_falsy (s : jstring) : bool := match s with [] => true | _ :: _ => false end.

(** [validateRequest]: the pair [(isValid, error)]. *)
Definition validateRequest (providers : Providers) (request : TranslationRequest)
    : bool * option jstring :=
  if js_falsy (js_trim (request_text request)) then (false, Some (js "Text is required"))
  else if js_falsy (request_sourceLanguage request)
  then (false, Some (js "Source language is required"))
  else if js_falsy (request_targetLanguage request)
  then (false, Some (js "Target language is required"))
  else if js_eqb (request_sourceLanguage request) (request_targetLanguage request)
  then (false, Some (js "Source and target languages cannot be the same"))
  else if js_falsy (request_provider request) then (false, Some (js "Provider is required"))
  else if js_falsy (request_model request) then (false, Some (js "Model is required"))
  else match providers (request_provider request) with
       | None => (false, Some (js "Invalid provider"))
       | Some _ =>
           if negb (isProviderConfigured providers (request_provider request))
           then (false, Some (js "Provider is not configured"))
           else (true, None)
       end.

(** The total time, in milliseconds, a batch spends in [setTimeout]. *)
Fixpoint total_sleep (events : list BatchEvent) : nat :=
  match events with
  | [] => 0
  | Sleep ms :: es => ms + total_sleep es
  | CallModel _ :: es => total_sleep es
  end.

(** What [drop_ws] leaves starts with a non-whitespace character. *)
Definition starts_non_ws (s : jstring) : Prop :=
  match s with [] => True | c :: _ => is_ws c = false end.

(** The per-batch contributions to the run's counters. *)
Section Counters.
Variable config : TranslationConfig.
Variables texts : list jstring.
Variables provider model : jstring.
Variable gen : Oracle.

Local Abbreviation bts := (batches config texts).

(** The number of texts of batch [j] ([0] past the last batch). *)
Definition batch_size_at (j : nat) : nat :=
  match bts !! j with Some b => length (batch_texts b) | None => 0 end.

(** The indices batch [j] pushes to [failed]. *)
Definition batch_failed_at (j : nat) : list nat :=
  match bts !! j with
  | Some b =>
      match snd (batch_run config provider model gen j b) with
      | BatchFailed _ => map (fun i => startIndex b + i) (seq 0 (length (batch_texts b)))
      | BatchSucceeded _ => []
      end
  | None => []
  end.

End Counters.

(** * Properties *)

(** ** The response parser *)

Lemma fallback_lines_clean (response : jstring) :
  Forall (fun line => line <> [] /\ is_bare_numeral line = false) (fallback_lines response).
Proof.
  unfold fallback_lines. apply List.Forall_forall. intros l Hl.
  apply filter_In in Hl as [_ Hl]. apply andb_prop in Hl as [H1 H2].
  split.
  - intros ->. discriminate.
  - apply negb_true_iff. exact H2.
Qed.

Lemma pad_lines (lines : list jstring) (d : jstring) (n : nat) :
  Forall (fun l => l <> []) lines -> length lines <= n ->
  map (fun i => js_or (lines !! i) d) (seq 0 n) = lines ++ replicate (n - length lines) d.
Proof.
  revert n. induction lines as [|l ls IH]; intros n Hne Hle.
  - simpl. rewrite Nat.sub_0_r. induction n as [|n IHn]; [done|].
    rewrite <- cons_seq, <- seq_shift, map_cons, map_map. simpl.
    f_equal. apply IHn; simpl; lia.
  - destruct n as [|n]; [simpl in Hle; lia|].
    inversion Hne as [|? ? Hl Hls]; subst.
    rewrite <- cons_seq, <- seq_shift, map_cons, map_map. simpl.
    destruct l as [|c l]; [contradiction|].
    f_equal. apply IH; [done|simpl in Hle; lia].
Qed.

Lemma parse_fallback_length (response : jstring) (expectedCount : nat) :
  length (parse_fallback response expectedCount) = expectedCount.
Proof.
  unfold parse_fallback. destruct (Nat.leb_spec expectedCount (length (fallback_lines response))).
  - rewrite length_take. lia.
  - rewrite length_map, length_seq. done.
Qed.

(** When the numbered matches do not number exactly [expectedCount]
    entries, the parser falls back to strategies 2 and 3. *)
Lemma parse_uses_fallback (response : jstring) (expectedCount : nat) :
  match match_numbered response with
  | Some ms => length ms <> expectedCount
  | None => True
  end ->
  parseTranslationResponse response expectedCount = parse_fallback response expectedCount.
Proof.
  unfold parseTranslationResponse. destruct (match_numbered response) as [ms|]; [|done].
  intros Hne. destruct (Nat.eqb_spec (length ms) expectedCount); [contradiction|done].
Qed.

(** C2 (corrected): the parser is total and always returns exactly
    [expectedCount] strings.  When the numbered matches do not number exactly
    [expectedCount] entries and fewer than [expectedCount] lines survive
    strategy 2's filter, the result is those lines followed by as many
    error markers as are missing (at least one). *)
Theorem parse_length_and_padding (response : jstring) (expectedCount : nat) :
  length (parseTranslationResponse response expectedCount) = expectedCount /\
  (match match_numbered response with
   | Some ms => length ms <> expectedCount
   | None => True
   end ->
   length (fallback_lines response) < expectedCount ->
   parseTranslationResponse response expectedCount =
     fallback_lines response
       ++ replicate (expectedCount - length (fallback_lines response)) parse_error_marker).
Proof.
  split.
  - unfold parseTranslationResponse.
    destruct (match_numbered response) as [ms|]; [|apply parse_fallback_length].
    destruct (Nat.eqb_spec (length ms) expectedCount).
    + rewrite length_map. done.
    + apply parse_fallback_length.
  - intros Hc Hlt. rewrite parse_uses_fallback by exact Hc.
    unfold parse_fallback. destruct (Nat.leb_spec expectedCount (length (fallback_lines response))); [lia|].
    apply pad_lines; [|lia].
    eapply Forall_impl; [apply fallback_lines_clean|]. intros l [Hl _]. exact Hl.
Qed.

(** C2 (counterexample): the response ["1.\n7"] has no line surviving
    strategy 2's filter, fewer than the one expected, yet the parser returns
    ["7"] and no error marker: [\s*] of strategy 1 crosses the line break. *)
Lemma parse_padding_counterexample :
  length (fallback_lines (js "1.
7")) < 1 /\
  parseTranslationResponse (js "1.
7") 1 = [js "7"] /\
  js "7" <> parse_error_marker.
Proof. vm_compute. split; [lia|]. split; [reflexivity|discriminate]. Qed.

(** C8: strategy 2.  When the numbered matches do not number exactly
    [expectedCount] entries and at least [expectedCount] lines survive the
    filter (trimmed, non-blank, not a bare numeral [^\d+\.?\s*$]), the parser
    returns exactly the first [expectedCount] of them; so no returned string
    is blank or a bare numeral, and a numeral-only translation is dropped. *)
Theorem parse_strategy2_take_first (response : jstring) (expectedCount : nat)
  (Hcount : match match_numbered response with
            | Some ms => length ms <> expectedCount
            | None => True
            end)
  (Henough : expectedCount <= length (fallback_lines response)) :
  parseTranslationResponse response expectedCount = take expectedCount (fallback_lines response) /\
  Forall (fun line => line <> [] /\ is_bare_numeral line = false)
    (parseTranslationResponse response expectedCount).
Proof.
  assert (Heq : parseTranslationResponse response expectedCount
                = take expectedCount (fallback_lines response)).
  { rewrite parse_uses_fallback by exact Hcount. unfold parse_fallback.
    destruct (Nat.leb_spec expectedCount (length (fallback_lines response))); [done|lia]. }
  split; [exact Heq|]. rewrite Heq. apply Forall_take. apply fallback_lines_clean.
Qed.

Lemma parse_strategy2_take_first_witness :
  (match match_numbered (js "Hello
42
World") with
   | Some ms => length ms <> 2
   | None => True
   end) /\
  2 <= length (fallback_lines (js "Hello
42
World")) /\
  parseTranslationResponse (js "Hello
42
World") 2 = [js "Hello"; js "World"].
Proof.
  assert (Hc : match match_numbered (js "Hello
42
World") with
   | Some ms => length ms <> 2
   | None => True
   end) by (vm_compute; exact I).
  assert (Hl : 2 <= length (fallback_lines (js "Hello
42
World"))) by (vm_compute; lia).
  split; [exact Hc|]. split; [exact Hl|].
  destruct (parse_strategy2_take_first (js "Hello
42
World") 2 Hc Hl) as [-> _]. vm_compute. reflexivity.
Defined.

(** C9: fallback strategy 2 does not strip numbering.  For the response
    ["1. Hola\n2. Mundo"] and one expected entry, the two numbered matches do
    not number one entry, both lines survive the filter, and the parser
    returns ["1. Hola"], which still carries its "1. " prefix. *)
Theorem parse_fallback_keeps_numbering :
  exists (response : jstring) (expectedCount : nat),
    match_numbered response = Some [js "1. Hola"; js "2. Mundo"] /\
    length [js "1. Hola"; js "2. Mundo"] <> expectedCount /\
    expectedCount <= length (fallback_lines response) /\
    parseTranslationResponse response expectedCount = [js "1. Hola"] /\
    strip_numbering (js "1. Hola") = js "Hola".
Proof.
  exists (js "1. Hola
2. Mundo"), 1.
  vm_compute. repeat split; try reflexivity; lia.
Qed.

(** ** The scheduler *)

(** The loop [for (i = 0; i < n; i++) results[start + i] = f(i)] when the
    written range lies inside the array. *)
Lemma write_loop_spec {A} (f : nat -> A) (start : nat) :
  forall n a (res : list (option A)), start + a + n <= length res ->
  length (fold_left (fun r i => js_array_set r (start + i) (f i)) (seq a n) res) = length res /\
  forall j, fold_left (fun r i => js_array_set r (start + i) (f i)) (seq a n) res !! j =
    if decide (start + a <= j < start + a + n) then Some (Some (f (j - start))) else res !! j.
Proof.
  induction n as [|n IH]; intros a res Hle.
  - simpl. split; [done|]. intros j. case_decide; [lia|done].
  - simpl.
    assert (Hset : js_array_set res (start + a) (f a) = <[start + a := Some (f a)]> res).
    { unfold js_array_set. destruct (Nat.ltb_spec (start + a) (length res)); [done|lia]. }
    rewrite Hset.
    destruct (IH (S a) (<[start + a := Some (f a)]> res)) as [Hlen Hlk];
      [rewrite length_insert; lia|].
    split; [rewrite Hlen, length_insert; done|].
    intros j. rewrite Hlk, list_lookup_insert.
    repeat case_decide; try done; try lia.
    replace j with (start + a) by lia. do 3 f_equal. lia.
Qed.

Lemma finish_batch_spec (src tgt : jstring) (b : Batch) (e : BatchEnd) (st : RunState) :
  startIndex b + length (batch_texts b) <= length (results st) ->
  let st' := finish_batch src tgt b e st in
  length (results st') = length (results st) /\
  (forall j, results st' !! j =
     if decide (startIndex b <= j < startIndex b + length (batch_texts b))
     then Some (Some (match e with
                      | BatchSucceeded ts => success_unit src tgt b ts (j - startIndex b)
                      | BatchFailed m => failure_unit src tgt b m (j - startIndex b)
                      end))
     else results st !! j) /\
  failed st' = failed st ++ (match e with
                             | BatchSucceeded _ => []
                             | BatchFailed _ => map (fun i => startIndex b + i) (seq 0 (length (batch_texts b)))
                             end) /\
  processedSubtitles st' = processedSubtitles st + length (batch_texts b).
Proof.
  intros Hle. destruct e as [ts|m]; simpl.
  - destruct (write_loop_spec (success_unit src tgt b ts) (startIndex b)
                (length (batch_texts b)) 0 (results st)) as [Hl Hk]; [lia|].
    rewrite Nat.add_0_r in Hk. split; [done|]. split; [exact Hk|]. split; [|done].
    rewrite app_nil_r. done.
  - destruct (write_loop_spec (failure_unit src tgt b m) (startIndex b)
                (length (batch_texts b)) 0 (results st)) as [Hl Hk]; [lia|].
    rewrite Nat.add_0_r in Hk. split; [done|]. split; [exact Hk|]. done.
Qed.

Lemma length_js_slice {A} (l : list A) (i j : nat) :
  i <= j <= length l -> length (js_slice l i j) = j - i.
Proof. intros H. unfold js_slice. rewrite length_take, length_drop. lia. Qed.

Lemma lookup_js_slice {A} (l : list A) (i j k : nat) :
  k < j - i -> js_slice l i j !! k = l !! (i + k).
Proof.
  intros H. unfold js_slice. rewrite lookup_take_lt by lia. rewrite lookup_drop. done.
Qed.

Section Batches.
Variable texts : list jstring.
Variable batchSize : nat.
Hypothesis batchSize_pos : 1 <= batchSize.

Lemma batches_lookup :
  forall fuel i j b, make_batches_from fuel texts batchSize i !! j = Some b ->
  startIndex b = i + j * batchSize /\ startIndex b < length texts /\
  batch_texts b = js_slice texts (startIndex b) (Nat.min (startIndex b + batchSize) (length texts)).
Proof.
  induction fuel as [|fuel IH]; intros i j b H; simpl in H; [done|].
  destruct (Nat.ltb_spec i (length texts)); [|done].
  destruct j as [|j]; simpl in H.
  - injection H as <-. simpl. split; [lia|]. split; [lia|done].
  - destruct (IH (i + batchSize) j b H) as (H1 & H2 & H3).
    split; [lia|]. split; done.
Qed.

Lemma batches_cover :
  forall fuel i x, i <= x < length texts -> length texts <= i + fuel ->
  exists j b, make_batches_from fuel texts batchSize i !! j = Some b /\
    startIndex b <= x < startIndex b + length (batch_texts b).
Proof.
  induction fuel as [|fuel IH]; intros i x Hx Hf; [lia|]. simpl.
  destruct (Nat.ltb_spec i (length texts)); [|lia].
  destruct (Nat.lt_ge_cases x (i + batchSize)) as [Hlt|Hge].
  - exists 0. eexists. split; [reflexivity|]. simpl.
    rewrite length_js_slice by lia. lia.
  - destruct (IH (i + batchSize) x) as (j & b & Hj & Hr); [lia|lia|].
    exists (S j), b. split; [exact Hj|exact Hr].
Qed.
End Batches.

Lemma js_or_nat_pos (v d : nat) : 1 <= d -> 1 <= js_or_nat v d.
Proof. unfold js_or_nat. destruct (Nat.eqb_spec v 0); lia. Qed.

Section RunProofs.
Variable config : TranslationConfig.
Variables texts : list jstring.
Variables src tgt provider model : jstring.
Variable gen : Oracle.

Local Abbreviation bs := (eff_batchSize config).
Local Abbreviation n := (length texts).
Local Abbreviation bts := (batches config texts).

Lemma eff_batchSize_pos : 1 <= bs.
Proof. apply js_or_nat_pos. lia. Qed.

Lemma batch_props j b :
  bts !! j = Some b ->
  startIndex b = j * bs /\ startIndex b + length (batch_texts b) <= n /\
  length (batch_texts b) <= bs /\
  (forall k, k < length (batch_texts b) -> batch_texts b !! k = texts !! (startIndex b + k)).
Proof.
  intros Hb. pose proof eff_batchSize_pos as Hbs.
  destruct (batches_lookup texts bs Hbs n 0 j b Hb) as (H1 & H2 & H3).
  assert (Hlen : length (batch_texts b) = Nat.min (startIndex b + bs) n - startIndex b).
  { rewrite H3. apply length_js_slice. lia. }
  split; [lia|]. split; [lia|]. split; [lia|].
  intros k Hk. rewrite H3. apply lookup_js_slice. lia.
Qed.

Lemma batch_cover i :
  i < n -> exists j b, bts !! j = Some b /\ startIndex b <= i < startIndex b + length (batch_texts b).
Proof.
  intros Hi. apply (batches_cover texts bs eff_batchSize_pos n 0 i); lia.
Qed.

Lemma batch_disjoint j j' b b' i :
  bts !! j = Some b -> bts !! j' = Some b' -> j <> j' ->
  startIndex b <= i < startIndex b + length (batch_texts b) ->
  ~ (startIndex b' <= i < startIndex b' + length (batch_texts b')).
Proof.
  intros Hb Hb' Hne Hi Hi'.
  destruct (batch_props j b Hb) as (S1 & _ & L1 & _).
  destruct (batch_props j' b' Hb') as (S2 & _ & L2 & _).
  destruct (Nat.lt_trichotomy j j') as [Hlt|[Heq|Hgt]]; [| contradiction |].
  - assert (j * bs + bs <= j' * bs) by nia. lia.
  - assert (j' * bs + bs <= j * bs) by nia. lia.
Qed.

Lemma finish_nth_length j st :
  length (results st) = n -> length (results (finish_nth config texts src tgt provider model gen st j)) = n.
Proof.
  intros Hl. unfold finish_nth. destruct (bts !! j) as [b|] eqn:Hb; [|done].
  destruct (batch_props j b Hb) as (_ & Hr & _).
  destruct (finish_batch_spec src tgt b (snd (batch_run config provider model gen j b)) st)
    as (Hl' & _); [lia|]. lia.
Qed.

Lemma finish_nth_in j b st i :
  length (results st) = n -> bts !! j = Some b ->
  startIndex b <= i < startIndex b + length (batch_texts b) ->
  results (finish_nth config texts src tgt provider model gen st j) !! i =
    Some (Some (end_unit src tgt b (snd (batch_run config provider model gen j b)) (i - startIndex b))).
Proof.
  intros Hl Hb Hi. unfold finish_nth. rewrite Hb.
  destruct (batch_props j b Hb) as (_ & Hr & _).
  destruct (finish_batch_spec src tgt b (snd (batch_run config provider model gen j b)) st)
    as (_ & Hk & _); [lia|].
  rewrite Hk. case_decide; [|lia]. unfold end_unit.
  destruct (snd (batch_run config provider model gen j b)); done.
Qed.

Lemma finish_nth_out j st i :
  length (results st) = n ->
  (forall b, bts !! j = Some b -> ~ (startIndex b <= i < startIndex b + length (batch_texts b))) ->
  results (finish_nth config texts src tgt provider model gen st j) !! i = results st !! i.
Proof.
  intros Hl Hout. unfold finish_nth. destruct (bts !! j) as [b|] eqn:Hb; [|done].
  destruct (batch_props j b Hb) as (_ & Hr & _).
  destruct (finish_batch_spec src tgt b (snd (batch_run config provider model gen j b)) st)
    as (_ & Hk & _); [lia|].
  rewrite Hk. case_decide; [|done]. exfalso. exact (Hout b eq_refl H).
Qed.

Lemma fold_finish_length l st :
  length (results st) = n ->
  length (results (fold_left (finish_nth config texts src tgt provider model gen) l st)) = n.
Proof.
  revert st. induction l as [|j l IH]; intros st Hl; simpl; [done|].
  apply IH. apply finish_nth_length. done.
Qed.

Lemma fold_finish_out l st i :
  length (results st) = n ->
  (forall j, In j l -> forall b, bts !! j = Some b ->
     ~ (startIndex b <= i < startIndex b + length (batch_texts b))) ->
  results (fold_left (finish_nth config texts src tgt provider model gen) l st) !! i = results st !! i.
Proof.
  revert st. induction l as [|j l IH]; intros st Hl Hout; simpl; [done|].
  rewrite IH.
  - apply finish_nth_out; [done|]. apply Hout. left. done.
  - apply finish_nth_length. done.
  - intros j' Hj'. apply Hout. right. done.
Qed.
Lemma run_length schedule :
  length (results (run_translateBatch config texts src tgt provider model gen schedule)) = n.
Proof. unfold run_translateBatch. apply fold_finish_length. simpl. apply length_replicate. Qed.

(** Whatever the order in which the batches end, slot [i] of the final
    array holds the unit written by the one batch that contains [i]. *)
Lemma run_final schedule j b i :
  valid_schedule config texts schedule -> bts !! j = Some b ->
  startIndex b <= i < startIndex b + length (batch_texts b) ->
  results (run_translateBatch config texts src tgt provider model gen schedule) !! i =
    Some (Some (end_unit src tgt b (snd (batch_run config provider model gen j b)) (i - startIndex b))).
Proof.
  intros Hs Hb Hi. unfold run_translateBatch.
  assert (Hj : j < length bts) by (apply lookup_lt_Some in Hb; done).
  assert (Hw : (Nat.min (eff_concurrency config) (length bts) =? 0) = false).
  { apply Nat.eqb_neq.
    assert (1 <= eff_concurrency config) by (apply js_or_nat_pos; lia). lia. }
  rewrite Hw.
  assert (Hin : In j schedule).
  { apply (Permutation_in j (Permutation_sym Hs)). apply in_seq. lia. }
  assert (Hnd : List.NoDup schedule).
  { apply (Permutation_NoDup (Permutation_sym Hs)). apply seq_NoDup. }
  apply in_split in Hin as (l1 & l2 & ->).
  rewrite fold_left_app. simpl.
  assert (Hl0 : length (results (initial_state texts)) = n) by (simpl; apply length_replicate).
  rewrite fold_finish_out.
  - apply finish_nth_in; [|done|done]. apply fold_finish_length. exact Hl0.
  - apply finish_nth_length, fold_finish_length. exact Hl0.
  - intros j' Hj' b' Hb'. apply (batch_disjoint j j' b b' i Hb Hb'); [|done].
    intros ->. apply List.NoDup_remove_2 in Hnd. apply Hnd. apply in_or_app. right. done.
Qed.
End RunProofs.

(** ** Retries *)

Lemma retry_loop_ext (maxR : nat) (c1 c2 : nat -> list jstring + jstring) :
  (forall r, c1 r = c2 r) -> forall fuel r, retry_loop maxR c1 fuel r = retry_loop maxR c2 fuel r.
Proof.
  intros Hc. induction fuel as [|fuel IH]; intros r; simpl; rewrite Hc; [done|].
  destruct (c2 r); [done|]. destruct (r <? maxR); [|done]. rewrite IH. done.
Qed.

Lemma retry_loop_all_fail (maxR : nat) (call : nat -> list jstring + jstring) (msg : jstring) :
  forall fuel r, r + fuel = maxR ->
  (forall r', r <= r' < maxR -> exists m, call r' = inr m) -> call maxR = inr msg ->
  retry_loop maxR call fuel r =
    (flat_map (fun k => [CallModel k; Sleep (2 ^ k * 1000)]) (seq r fuel) ++ [CallModel maxR],
     BatchFailed msg).
Proof.
  induction fuel as [|fuel IH]; intros r Hr Hf Hl.
  - rewrite Nat.add_0_r in Hr. subst r. simpl. rewrite Hl.
    destruct (maxR <? maxR); done.
  - simpl. destruct (Hf r) as [m Hm]; [lia|]. rewrite Hm.
    replace (r <? maxR) with true by (symmetry; apply Nat.ltb_lt; lia).
    rewrite (IH (S r)); [done|lia| |done].
    intros r' Hr'. apply Hf. lia.
Qed.

(** Every failure is handled alike, whatever its message. *)
Lemma retry_loop_fail_step (maxR : nat) (call : nat -> list jstring + jstring) (fuel r : nat) (msg : jstring) :
  call r = inr msg -> r < maxR ->
  retry_loop maxR call (S fuel) r =
    (CallModel r :: Sleep (2 ^ r * 1000) :: fst (retry_loop maxR call fuel (S r)),
     snd (retry_loop maxR call fuel (S r))).
Proof.
  intros Hc Hlt. simpl. rewrite Hc.
  replace (r <? maxR) with true by (symmetry; apply Nat.ltb_lt; lia).
  destruct (retry_loop maxR call fuel (S r)). done.
Qed.

Lemma retry_loop_fail_last (maxR : nat) (call : nat -> list jstring + jstring) (fuel r : nat) (msg : jstring) :
  call r = inr msg -> maxR <= r ->
  retry_loop maxR call fuel r = ([CallModel r], BatchFailed msg).
Proof.
  intros Hc Hle. destruct fuel; simpl; rewrite Hc;
    replace (r <? maxR) with false by (symmetry; apply Nat.ltb_ge; lia); done.
Qed.

Lemma retry_loop_head (maxR : nat) (call : nat -> list jstring + jstring) (fuel r : nat) :
  exists rest, fst (retry_loop maxR call fuel r) = CallModel r :: rest.
Proof.
  destruct fuel as [|f]; simpl; destruct (call r); try (eexists; reflexivity);
    destruct (r <? maxR); try (eexists; reflexivity).
  destruct (retry_loop maxR call f (S r)). eexists. reflexivity.
Qed.

(** A failure at a retry count below [maxR], reached after failures only,
    is followed by the wait and the next call. *)
Lemma retry_loop_prefix (maxR : nat) (call : nat -> list jstring + jstring) :
  forall fuel r0 r, r0 <= r < maxR -> r0 + fuel = maxR ->
  (forall k, r0 <= k <= r -> exists m, call k = inr m) ->
  exists rest, fst (retry_loop maxR call fuel r0) =
    flat_map (fun k => [CallModel k; Sleep (2 ^ k * 1000)]) (seq r0 (S r - r0))
      ++ CallModel (S r) :: rest.
Proof.
  induction fuel as [|f IH]; intros r0 r Hr Hf Hk; [lia|].
  destruct (Hk r0) as [m Hm]; [lia|].
  rewrite (retry_loop_fail_step maxR call f r0 m Hm ltac:(lia)). simpl fst.
  destruct (Nat.eq_dec r0 r) as [<-|Hne].
  - destruct (retry_loop_head maxR call f (S r0)) as [rest Hrest].
    exists rest. rewrite Hrest. replace (S r0 - r0) with 1 by lia. reflexivity.
  - destruct (IH (S r0) r) as [rest Hrest]; [lia|lia| |].
    + intros k Hk'. apply Hk. lia.
    + exists rest. rewrite Hrest. replace (S r - r0) with (S (S r - S r0)) by lia. reflexivity.
Qed.

Lemma createModel_ok (providerId : jstring) (provider : AIProvider) (modelName : jstring) :
  exists client, createModel providerId provider modelName = inl client /\
    client_family client =
      (if js_eqb providerId (js "anthropic") || url_includes (baseURL provider) (js "anthropic.com")
       then AnthropicFamily
       else if js_eqb providerId (js "google") || url_includes (baseURL provider) (js "googleapis.com")
       then GoogleFamily
       else OpenAIFamily).
Proof.
  unfold createModel. cbv zeta.
  destruct (js_eqb providerId (js "anthropic") || url_includes (baseURL provider) (js "anthropic.com"));
    [eexists; split; reflexivity|].
  destruct (js_eqb providerId (js "google") || url_includes (baseURL provider) (js "googleapis.com"));
    [eexists; split; reflexivity|].
  destruct (_ || _); eexists; split; reflexivity.
Qed.

(** ** Claims about the scheduler *)

(** C1: for every input, every configuration, every behaviour of the model
    calls and every order in which the batches end, [translateBatch]
    resolves with an array as long as the input whose every slot [i] holds a
    unit with [originalText] the [i]-th input text. *)
Theorem translateBatch_order_invariant (config : TranslationConfig) (texts : list jstring)
  (src tgt provider model : jstring) (gen : Oracle) (schedule : list nat)
  (Hsched : valid_schedule config texts schedule) :
  length (translateBatch config texts src tgt provider model gen schedule) = length texts /\
  forall i, i < length texts -> exists u,
    translateBatch config texts src tgt provider model gen schedule !! i = Some (Some u) /\
    texts !! i = Some (originalText u).
Proof.
  split; [apply run_length|]. intros i Hi.
  destruct (batch_cover config texts i Hi) as (j & b & Hb & Hr).
  eexists. split; [exact (run_final config texts src tgt provider model gen schedule j b i Hsched Hb Hr)|].
  destruct (batch_props config texts j b Hb) as (_ & _ & _ & Hk).
  assert (Hk' : batch_texts b !! (i - startIndex b) = texts !! i).
  { rewrite Hk by lia. f_equal. lia. }
  destruct (lookup_lt_is_Some_2 (batch_texts b) (i - startIndex b)) as [x Hx]; [lia|].
  rewrite <- Hk', Hx. unfold end_unit.
  destruct (snd (batch_run config provider model gen j b)); simpl;
    rewrite (nth_lookup_Some _ _ _ _ Hx); done.
Qed.

Lemma translateBatch_order_invariant_witness :
  valid_schedule sample_config sample_texts [1; 0] /\
  length (translateBatch sample_config sample_texts (js "en") (js "es") (js "openai")
            (js "gpt-4o-mini") sample_gen [1; 0]) = length sample_texts /\
  map (option_map translatedText)
    (translateBatch sample_config sample_texts (js "en") (js "es") (js "openai")
       (js "gpt-4o-mini") sample_gen [1; 0])
  = [Some (js "HELLO"); Some (js "WORLD"); Some (js "FOO")].
Proof.
  assert (Hs : valid_schedule sample_config sample_texts [1; 0]).
  { unfold valid_schedule. vm_compute. apply perm_swap. }
  split; [exact Hs|]. split.
  - exact (proj1 (translateBatch_order_invariant sample_config sample_texts (js "en") (js "es")
             (js "openai") (js "gpt-4o-mini") sample_gen [1; 0] Hs)).
  - vm_compute. reflexivity.
Defined.

(** C3: for every batch and every behaviour of its model calls, a call that
    fails at a retry count [r] below the scheduler's [maxRetries] (the
    calls before it having failed too, as it is reached only then) is
    followed in the batch's trace by a wait of [2^r] seconds and a call of
    the same batch at retry count [r + 1], whatever happens afterwards (the
    batch may later succeed).  A batch whose call fails at every retry count
    up to [maxRetries] is called [maxRetries + 1] times and then ends failed
    with the last error's message.  Its end writes a failure unit for
    exactly its own positions, appends those positions to [failed] and adds
    its size to [processedSubtitles]; in the final array its positions hold
    failure units, and the other positions do not depend on the model calls
    of this batch. *)
Theorem batch_retries_exhausted (config : TranslationConfig) (texts : list jstring)
  (src tgt provider model : jstring) (gen : Oracle) (schedule : list nat)
  (j0 : nat) (b0 : Batch)
  (Hsched : valid_schedule config texts schedule)
  (Hb0 : batches config texts !! j0 = Some b0) :
  (forall r, r < eff_maxRetries config ->
     (forall k, k <= r -> exists m,
        translateSubtitleBatch (providers config) (batch_texts b0) provider model (gen j0 k) = inr m) ->
     exists rest, fst (batch_run config provider model gen j0 b0) =
       flat_map (fun k => [CallModel k; Sleep (2 ^ k * 1000)]) (seq 0 (S r))
         ++ CallModel (S r) :: rest) /\
  (forall msg : jstring,
  (forall r, r < eff_maxRetries config -> exists m,
     translateSubtitleBatch (providers config) (batch_texts b0) provider model (gen j0 r) = inr m) ->
  translateSubtitleBatch (providers config) (batch_texts b0) provider model
             (gen j0 (eff_maxRetries config)) = inr msg ->
  batch_run config provider model gen j0 b0 =
    (flat_map (fun r => [CallModel r; Sleep (2 ^ r * 1000)]) (seq 0 (eff_maxRetries config))
       ++ [CallModel (eff_maxRetries config)],
     BatchFailed msg) /\
  (forall st, length (results st) = length texts ->
     let st' := finish_batch src tgt b0 (BatchFailed msg) st in
     (forall k, k < length (batch_texts b0) ->
        results st' !! (startIndex b0 + k) = Some (Some (failure_unit src tgt b0 msg k))) /\
     (forall i, ~ (startIndex b0 <= i < startIndex b0 + length (batch_texts b0)) ->
        results st' !! i = results st !! i) /\
     failed st' = failed st ++ map (fun k => startIndex b0 + k) (seq 0 (length (batch_texts b0))) /\
     processedSubtitles st' = processedSubtitles st + length (batch_texts b0)) /\
  (forall k, k < length (batch_texts b0) ->
     translateBatch config texts src tgt provider model gen schedule !! (startIndex b0 + k)
     = Some (Some (failure_unit src tgt b0 msg k))) /\
  (forall gen' : Oracle, (forall j r, j <> j0 -> gen' j r = gen j r) ->
     forall i, ~ (startIndex b0 <= i < startIndex b0 + length (batch_texts b0)) ->
     translateBatch config texts src tgt provider model gen' schedule !! i
     = translateBatch config texts src tgt provider model gen schedule !! i)).
Proof.
  split.
  { intros r Hr Hk. unfold batch_run, processBatchWithRetry.
    apply (retry_loop_prefix (eff_maxRetries config) _ (eff_maxRetries config) 0 r); [lia|lia|].
    intros k Hk'. apply Hk. lia. }
  intros msg Hfail Hlast.
  destruct (batch_props config texts j0 b0 Hb0) as (_ & Hr0 & _ & _).
  assert (Hrun : batch_run config provider model gen j0 b0 =
    (flat_map (fun r => [CallModel r; Sleep (2 ^ r * 1000)]) (seq 0 (eff_maxRetries config))
       ++ [CallModel (eff_maxRetries config)], BatchFailed msg)).
  { unfold batch_run, processBatchWithRetry. apply retry_loop_all_fail; [lia| |exact Hlast].
    intros r' Hr'. apply Hfail. lia. }
  split; [exact Hrun|]. split; [|split].
  - intros st Hst. cbv zeta.
    destruct (finish_batch_spec src tgt b0 (BatchFailed msg) st) as (_ & Hk & Hf & Hp); [lia|].
    split; [|split; [|split]]; [| |exact Hf|exact Hp].
    + intros k Hk'. rewrite Hk. case_decide; [|lia]. do 3 f_equal. lia.
    + intros i Hi. rewrite Hk. case_decide; [contradiction|done].
  - intros k Hk. unfold translateBatch.
    rewrite (run_final config texts src tgt provider model gen schedule j0 b0 (startIndex b0 + k) Hsched Hb0)
      by lia.
    rewrite Hrun. simpl. do 3 f_equal. lia.
  - intros gen' Hgen i Hi. unfold translateBatch.
    destruct (Nat.lt_ge_cases i (length texts)) as [Hlt|Hge].
    + destruct (batch_cover config texts i Hlt) as (j & b & Hb & Hr).
      rewrite (run_final config texts src tgt provider model gen' schedule j b i Hsched Hb Hr).
      rewrite (run_final config texts src tgt provider model gen schedule j b i Hsched Hb Hr).
      assert (Hj : j <> j0) by (intros ->; rewrite Hb0 in Hb; injection Hb as <-; contradiction).
      unfold batch_run, processBatchWithRetry.
      rewrite (retry_loop_ext (eff_maxRetries config)
        (fun r => translateSubtitleBatch (providers config) (batch_texts b) provider model (gen' j r))
        (fun r => translateSubtitleBatch (providers config) (batch_texts b) provider model (gen j r))).
      * done.
      * intros r. rewrite Hgen by exact Hj. done.
    + rewrite !lookup_ge_None_2; [done| |]; rewrite run_length; lia.
Qed.

Lemma batch_retries_exhausted_witness :
  valid_schedule sample_config sample_texts [0; 1] /\
  batches sample_config sample_texts !! 0 = Some {| batch_texts := [js "Hello"; js "World"]; startIndex := 0 |} /\
  (exists rest, fst (batch_run sample_config (js "openai") (js "gpt-4o-mini") flaky_gen 0
     {| batch_texts := [js "Hello"; js "World"]; startIndex := 0 |}) =
     [CallModel 0; Sleep 1000] ++ CallModel 1 :: rest) /\
  batch_run sample_config (js "openai") (js "gpt-4o-mini") aborted_gen 0
    {| batch_texts := [js "Hello"; js "World"]; startIndex := 0 |} =
    ([CallModel 0; Sleep 1000; CallModel 1; Sleep 2000; CallModel 2],
     BatchFailed (js "Translation cancelled by user")).
Proof.
  assert (Hs : valid_schedule sample_config sample_texts [0; 1]) by (vm_compute; reflexivity).
  assert (Hb : batches sample_config sample_texts !! 0 =
               Some {| batch_texts := [js "Hello"; js "World"]; startIndex := 0 |}) by reflexivity.
  split; [exact Hs|]. split; [exact Hb|]. split.
  - destruct (batch_retries_exhausted sample_config sample_texts (js "en") (js "es") (js "openai")
                (js "gpt-4o-mini") flaky_gen [0; 1] 0 _ Hs Hb) as [Hgen _].
    apply (Hgen 0).
    + vm_compute. lia.
    + intros k Hk. assert (k = 0) as -> by lia. eexists. reflexivity.
  - destruct (batch_retries_exhausted sample_config sample_texts (js "en") (js "es") (js "openai")
                (js "gpt-4o-mini") aborted_gen [0; 1] 0 _ Hs Hb) as [_ Hex].
    destruct (Hex (js "Translation cancelled by user")) as [-> _].
    + intros r _. eexists. reflexivity.
    + reflexivity.
    + reflexivity.
Defined.

(** C4 (corrected): a call that fails with [AbortError] surfaces as the
    error "Translation cancelled by user", and the scheduler handles it like
    any other failure: below [maxRetries] it waits [2^r] seconds and retries;
    only at [maxRetries] does the batch end failed, with that message. *)
Theorem cancelled_call_retried_like_any_failure :
  (forall (providersCfg : Providers) (texts : list jstring) (provider model : jstring)
          (providerConfig : AIProvider) (message : jstring),
     providersCfg provider = Some providerConfig ->
     translateSubtitleBatch providersCfg texts provider model
       (GenThrew (JsError (js "AbortError") message))
     = inr (js "Translation cancelled by user")) /\
  (forall (maxR : nat) (call : nat -> list jstring + jstring) (fuel r : nat),
     call r = inr (js "Translation cancelled by user") -> r < maxR ->
     retry_loop maxR call (S fuel) r =
       (CallModel r :: Sleep (2 ^ r * 1000) :: fst (retry_loop maxR call fuel (S r)),
        snd (retry_loop maxR call fuel (S r)))) /\
  (forall (maxR : nat) (call : nat -> list jstring + jstring) (fuel r : nat),
     call r = inr (js "Translation cancelled by user") -> maxR <= r ->
     retry_loop maxR call fuel r =
       ([CallModel r], BatchFailed (js "Translation cancelled by user"))).
Proof.
  split; [|split].
  - intros providersCfg texts provider model providerConfig message Hp.
    unfold translateSubtitleBatch. rewrite Hp.
    destruct (createModel_ok provider providerConfig model) as (client & -> & _).
    reflexivity.
  - intros maxR call fuel r Hc Hlt. exact (retry_loop_fail_step maxR call fuel r _ Hc Hlt).
  - intros maxR call fuel r Hc Hle. exact (retry_loop_fail_last maxR call fuel r _ Hc Hle).
Qed.

(** C4 (counterexample): after [cancel()] every call of the batch fails
    with [AbortError]; the scheduler still waits 1 s and 2 s and calls the
    model twice more before the batch ends. *)
Lemma cancelled_call_counterexample :
  batch_run sample_config (js "openai") (js "gpt-4o-mini") aborted_gen 0
    {| batch_texts := [js "Hello"; js "World"]; startIndex := 0 |} =
    ([CallModel 0; Sleep 1000; CallModel 1; Sleep 2000; CallModel 2],
     BatchFailed (js "Translation cancelled by user")).
Proof. vm_compute. reflexivity. Qed.

(** C5 (corrected): a provider absent from the configuration is not
    detected before scheduling.  Each batch's call fails with "Provider p not
    found in configuration", is retried like any failure and the batch ends
    failed; [translateBatch] then resolves normally, with a failure unit
    carrying that message at every position. *)
Theorem missing_provider_not_fail_fast (config : TranslationConfig) (texts : list jstring)
  (src tgt provider model : jstring) (gen : Oracle) (schedule : list nat)
  (Hsched : valid_schedule config texts schedule)
  (Hmissing : providers config provider = None) :
  (forall j b, batches config texts !! j = Some b ->
     batch_run config provider model gen j b =
       (flat_map (fun r => [CallModel r; Sleep (2 ^ r * 1000)]) (seq 0 (eff_maxRetries config))
          ++ [CallModel (eff_maxRetries config)],
        BatchFailed (js "Provider " ++ provider ++ js " not found in configuration"))) /\
  length (translateBatch config texts src tgt provider model gen schedule) = length texts /\
  (forall i, i < length texts -> exists u,
     translateBatch config texts src tgt provider model gen schedule !! i = Some (Some u) /\
     texts !! i = Some (originalText u) /\
     translatedText u = failure_marker (js "Provider " ++ provider ++ js " not found in configuration")).
Proof.
  assert (Hcall : forall bt g, translateSubtitleBatch (providers config) bt provider model g
                  = inr (js "Provider " ++ provider ++ js " not found in configuration")).
  { intros bt g. unfold translateSubtitleBatch. rewrite Hmissing. done. }
  assert (Hrun : forall j b, batches config texts !! j = Some b ->
     batch_run config provider model gen j b =
       (flat_map (fun r => [CallModel r; Sleep (2 ^ r * 1000)]) (seq 0 (eff_maxRetries config))
          ++ [CallModel (eff_maxRetries config)],
        BatchFailed (js "Provider " ++ provider ++ js " not found in configuration"))).
  { intros j b _. unfold batch_run, processBatchWithRetry.
    apply retry_loop_all_fail; [lia| |apply Hcall]. intros. eexists. apply Hcall. }
  split; [exact Hrun|]. split; [apply run_length|].
  intros i Hi.
  destruct (batch_cover config texts i Hi) as (j & b & Hb & Hr).
  eexists. split; [exact (run_final config texts src tgt provider model gen schedule j b i Hsched Hb Hr)|].
  rewrite (Hrun j b Hb). simpl. split; [|done].
  destruct (batch_props config texts j b Hb) as (_ & _ & _ & Hk).
  assert (Hk' : batch_texts b !! (i - startIndex b) = texts !! i).
  { rewrite Hk by lia. f_equal. lia. }
  destruct (lookup_lt_is_Some_2 (batch_texts b) (i - startIndex b)) as [x Hx]; [lia|].
  rewrite <- Hk', Hx. rewrite (nth_lookup_Some _ _ _ _ Hx). done.
Qed.

Lemma missing_provider_not_fail_fast_witness :
  valid_schedule sample_config sample_texts [1; 0] /\
  sample_config.(providers) (js "anthropic") = None /\
  length (translateBatch sample_config sample_texts (js "en") (js "es") (js "anthropic")
            (js "claude") sample_gen [1; 0]) = 3.
Proof.
  assert (Hs : valid_schedule sample_config sample_texts [1; 0]).
  { unfold valid_schedule. vm_compute. apply perm_swap. }
  assert (Hp : sample_config.(providers) (js "anthropic") = None) by reflexivity.
  split; [exact Hs|]. split; [exact Hp|].
  exact (proj1 (proj2 (missing_provider_not_fail_fast sample_config sample_texts (js "en") (js "es")
           (js "anthropic") (js "claude") sample_gen [1; 0] Hs Hp))).
Defined.

(** C5 (counterexample): with the provider "anthropic" absent from the
    configuration, the first batch is still called three times with
    back-off, and [translateBatch] resolves with failure units. *)
Lemma missing_provider_counterexample :
  batch_run sample_config (js "anthropic") (js "claude") sample_gen 0
    {| batch_texts := [js "Hello"; js "World"]; startIndex := 0 |} =
    ([CallModel 0; Sleep 1000; CallModel 1; Sleep 2000; CallModel 2],
     BatchFailed (js "Provider anthropic not found in configuration")) /\
  map (option_map translatedText)
    (translateBatch sample_config sample_texts (js "en") (js "es") (js "anthropic")
       (js "claude") sample_gen [0; 1])
  = replicate 3 (Some (js "[Translation failed: Provider anthropic not found in configuration]")).
Proof. vm_compute. split; reflexivity. Qed.

(** ** The model resolver *)

(** C7 (corrected): [createModel] never throws, and it picks the family of
    the first branch that matches, each branch testing the identifier or the
    base-URL substring: Anthropic when the id is "anthropic" or the baseURL
    contains "anthropic.com"; otherwise Google when the id is "google" or the
    baseURL contains "googleapis.com"; otherwise the OpenAI-compatible
    family.  So an unrecognised id with an unrecognised baseURL resolves to
    the OpenAI-compatible family, and so does the id "openai" unless its
    baseURL names Anthropic or Google. *)
Theorem createModel_family_selection (providerId : jstring) (provider : AIProvider) (modelName : jstring) :
  (exists client, createModel providerId provider modelName = inl client /\
     client_family client =
       (if js_eqb providerId (js "anthropic") || url_includes (baseURL provider) (js "anthropic.com")
        then AnthropicFamily
        else if js_eqb providerId (js "google") || url_includes (baseURL provider) (js "googleapis.com")
        then GoogleFamily
        else OpenAIFamily)) /\
  (providerId <> js "anthropic" -> providerId <> js "google" ->
   url_includes (baseURL provider) (js "anthropic.com") = false ->
   url_includes (baseURL provider) (js "googleapis.com") = false ->
   exists client, createModel providerId provider modelName = inl client /\
     client_family client = OpenAIFamily).
Proof.
  split; [apply createModel_ok|].
  intros Ha Hg Hua Hug.
  destruct (createModel_ok providerId provider modelName) as (client & Hc & Hf).
  exists client. split; [exact Hc|]. rewrite Hf, Hua, Hug.
  unfold js_eqb. rewrite !bool_decide_eq_false_2 by assumption. done.
Qed.

(** C7 (counterexample): the built-in provider "openai" configured with an
    Anthropic base URL resolves to the Anthropic family. *)
Lemma createModel_openai_id_counterexample :
  exists client,
    createModel (js "openai")
      {| name := js "OpenAI"; apiKey := js "sk-test";
         baseURL := Some (js "https://api.anthropic.com/v1"); models := [];
         isCustom := None |} (js "gpt-4o-mini") = inl client /\
    client_family client = AnthropicFamily.
Proof. eexists. split; reflexivity. Qed.

(** ** Units of a successful batch *)

(** C10: the unit a successful batch writes at its position [k] has a
    non-empty [translatedText]: where the parsed translation is the empty
    string the scheduler writes "[Translation failed: No response for item
    k+1]".  The parser can yield the empty string: ["1. "] parses to [""]. *)
Theorem success_translation_nonempty (src tgt : jstring) (b : Batch)
  (translatedTexts : list jstring) (st : RunState) (k : nat)
  (Hk : k < length (batch_texts b))
  (Hr : startIndex b + length (batch_texts b) <= length (results st)) :
  parseTranslationResponse (js "1. ") 1 = [[]] /\
  exists u,
    results (finish_batch src tgt b (BatchSucceeded translatedTexts) st) !! (startIndex b + k)
      = Some (Some u) /\
    translatedText u <> [] /\
    (translatedTexts !! k = Some [] -> translatedText u = no_response_marker k).
Proof.
  split; [vm_compute; reflexivity|].
  destruct (finish_batch_spec src tgt b (BatchSucceeded translatedTexts) st Hr) as (_ & Hl & _).
  eexists. split.
  - rewrite Hl. case_decide; [|lia]. reflexivity.
  - simpl. replace (startIndex b + k - startIndex b) with k by lia. split.
    + destruct (translatedTexts !! k) as [[|c s]|]; simpl; try discriminate.
      all: unfold no_response_marker; simpl; discriminate.
    + intros ->. reflexivity.
Qed.

Lemma success_translation_nonempty_witness :
  translatedText (success_unit (js "en") (js "es")
    {| batch_texts := [js "Hello"]; startIndex := 0 |} [[]] 0)
  = js "[Translation failed: No response for item 1]" /\
  exists u,
    results (finish_batch (js "en") (js "es") {| batch_texts := [js "Hello"]; startIndex := 0 |}
               (BatchSucceeded [[]]) (initial_state [js "Hello"])) !! 0 = Some (Some u) /\
    translatedText u <> [].
Proof.
  split; [vm_compute; reflexivity|].
  destruct (success_translation_nonempty (js "en") (js "es")
              {| batch_texts := [js "Hello"]; startIndex := 0 |} [[]]
              (initial_state [js "Hello"]) 0) as [_ (u & Hu & Hne & _)].
  - simpl. lia.
  - simpl. lia.
  - exists u. split; [exact Hu|exact Hne].
Defined.

(** ** Numbered responses *)

Lemma span_app (p : N -> bool) (xs ys : jstring) :
  forallb p xs = true -> span p (xs ++ ys) = (xs ++ fst (span p ys), snd (span p ys)).
Proof.
  induction xs as [|x xs IH]; simpl; intros H.
  - destruct (span p ys). done.
  - apply andb_prop in H as [Hx Hxs]. rewrite Hx, IH by exact Hxs. done.
Qed.

Lemma span_stop (p : N -> bool) (c : N) (ys : jstring) :
  p c = false -> span p (c :: ys) = ([], c :: ys).
Proof. intros H. simpl. rewrite H. done. Qed.

Lemma span_rest_stops (p : N -> bool) (s : jstring) :
  span p (snd (span p s)) = ([], snd (span p s)).
Proof.
  induction s as [|c s IH]; simpl; [done|].
  destruct (p c) eqn:Hc.
  - destruct (span p s) as [a b]. exact IH.
  - simpl. rewrite Hc. done.
Qed.

Lemma drop_ws_idem (s : jstring) : drop_ws (drop_ws s) = drop_ws s.
Proof. unfold drop_ws. rewrite span_rest_stops. done. Qed.

Lemma js_trim_drop_ws (s : jstring) : js_trim (drop_ws s) = js_trim s.
Proof. unfold js_trim. rewrite drop_ws_idem. done. Qed.

Lemma digits_rev_digits (fuel n : nat) : Forall (fun c => is_digit c = true) (digits_rev fuel n).
Proof.
  revert n. induction fuel as [|fuel IH]; intros n; simpl; [constructor|].
  constructor.
  - unfold is_digit. apply andb_true_intro.
    pose proof (Nat.mod_upper_bound n 10 ltac:(lia)).
    split; apply N.leb_le; lia.
  - destruct (n <? 10); [constructor|apply IH].
Qed.

Lemma js_number_digits (k : nat) :
  forallb is_digit (js_number k) = true /\ js_number k <> [].
Proof.
  unfold js_number. split.
  - apply forallb_forall. intros c Hc. apply in_rev in Hc.
    pose proof (digits_rev_digits (S k) k) as H. rewrite List.Forall_forall in H. apply H. exact Hc.
  - simpl. intros H. apply app_eq_nil in H as [_ H]. discriminate.
Qed.

Lemma plain_line_split (t : jstring) :
  plain_line t = true ->
  forallb (fun c => negb (is_line_terminator c)) t = true /\
  exists w0 c t', t = w0 ++ c :: t' /\ forallb is_ws w0 = true /\ is_ws c = false.
Proof.
  unfold plain_line. intros H. apply andb_prop in H as [Hnt Hex]. split; [exact Hnt|].
  clear Hnt. induction t as [|c t IH]; simpl in Hex; [discriminate|].
  destruct (is_ws c) eqn:Hc; simpl in Hex.
  - destruct (IH Hex) as (w0 & c' & t' & -> & Hw & Hc').
    exists (c :: w0), c', t'. simpl. rewrite Hc, Hw. done.
  - exists [], c, t. done.
Qed.

Lemma ws_backtrack_first (k : nat) (w rest : jstring) mr :
  dot_plus_eol (drop k w ++ rest) = Some mr -> ws_backtrack k w rest = Some (k, mr).
Proof. intros H. destruct k; cbn [ws_backtrack]; rewrite H; reflexivity. Qed.

Lemma numbered_line_at_general (ds w t' tail : jstring) (c : N) :
  forallb is_digit ds = true -> ds <> [] -> forallb is_ws w = true -> is_ws c = false ->
  forallb (fun c => negb (is_line_terminator c)) (c :: t') = true ->
  (tail = [] \/ exists rest, tail = 10%N :: rest) ->
  numbered_line_at (ds ++ 46%N :: w ++ c :: t' ++ tail) = Some (ds ++ 46%N :: w ++ c :: t', tail).
Proof.
  intros Hd Hne Hw Hc Hnt Htail.
  assert (Hct : is_line_terminator c = false).
  { cbn [forallb] in Hnt. apply andb_prop in Hnt as [H _]. destruct (is_line_terminator c); done. }
  assert (Htl : span (fun c => negb (is_line_terminator c)) tail = ([], tail)).
  { destruct Htail as [->|[rest ->]]; [done|]. apply span_stop. done. }
  assert (Hdot : dot_plus_eol (drop (length w) w ++ c :: t' ++ tail) = Some (c :: t', tail)).
  { rewrite drop_all. cbn [app]. unfold dot_plus_eol. rewrite Hct. cbn [negb].
    change (c :: t' ++ tail) with ((c :: t') ++ tail).
    rewrite (span_app _ _ _ Hnt), Htl. cbn [fst snd]. rewrite app_nil_r. done. }
  unfold numbered_line_at.
  rewrite (span_app is_digit ds _ Hd), span_stop by reflexivity.
  cbn [fst snd]. rewrite app_nil_r.
  destruct ds as [|d ds']; [contradiction|].
  cbv beta iota. rewrite N.eqb_refl.
  rewrite (span_app is_ws w _ Hw), span_stop by exact Hc.
  cbn [fst snd]. rewrite app_nil_r. cbv beta iota.
  rewrite (ws_backtrack_first _ _ _ _ Hdot). cbv beta iota.
  rewrite take_ge by lia. done.
Qed.

(** One numbered line followed by the end of the response or a line feed
    is one match of [/^\d+\.\s*(.+)$/gm], covering exactly the line. *)
Lemma numbered_line_at_line (k : nat) (t tail : jstring) :
  plain_line t = true -> (tail = [] \/ exists rest, tail = 10%N :: rest) ->
  numbered_line_at (numbered_line k t ++ tail) = Some (numbered_line k t, tail).
Proof.
  intros Hp Htail.
  destruct (plain_line_split t Hp) as (Hnt & w0 & c & t' & -> & Hw0 & Hc).
  destruct (js_number_digits k) as [Hd Hne].
  assert (Hnt' : forallb (fun c => negb (is_line_terminator c)) (c :: t') = true).
  { rewrite forallb_app in Hnt. apply andb_prop in Hnt as [_ Hnt]. exact Hnt. }
  assert (Hw : forallb is_ws (32%N :: w0) = true) by (cbn [forallb]; rewrite Hw0; reflexivity).
  unfold numbered_line. change (js ". ") with [46%N; 32%N].
  pose proof (numbered_line_at_general (js_number k) (32%N :: w0) t' tail c Hd Hne Hw Hc Hnt' Htail)
    as H.
  replace ((js_number k ++ [46%N; 32%N] ++ w0 ++ c :: t') ++ tail)
    with (js_number k ++ 46%N :: (32%N :: w0) ++ c :: t' ++ tail)
    by (rewrite <- !app_assoc; reflexivity).
  rewrite H. reflexivity.
Qed.

Lemma numbered_line_nonempty (k : nat) (t : jstring) : numbered_line k t <> [].
Proof.
  unfold numbered_line. intros H. apply app_eq_nil in H as [H _].
  exact (proj2 (js_number_digits k) H).
Qed.

Lemma scan_nil (fuel : nat) (bol : bool) : scan_numbered fuel bol [] = [].
Proof. destruct fuel; reflexivity. Qed.

Lemma scan_step_match (fuel : nat) (s m r : jstring) :
  s <> [] -> numbered_line_at s = Some (m, r) ->
  scan_numbered (S fuel) true s = m :: scan_numbered fuel false r.
Proof.
  intros Hne H. destruct s as [|c s]; [contradiction|].
  cbn [scan_numbered]. rewrite H. reflexivity.
Qed.

Lemma scan_step_lf (fuel : nat) (rest : jstring) :
  scan_numbered (S fuel) false (10%N :: rest) = scan_numbered fuel true rest.
Proof. reflexivity. Qed.

Lemma scan_numbered_response (ts : list jstring) :
  Forall (fun t => plain_line t = true) ts ->
  forall k fuel, length (numbered_response_from k ts) <= fuel ->
  scan_numbered fuel true (numbered_response_from k ts) = numbered_lines_from k ts.
Proof.
  induction ts as [|t ts IH]; intros Hall k fuel Hf; [apply scan_nil|].
  inversion Hall as [|? ? Ht Hts]; subst.
  pose proof (numbered_line_nonempty k t) as Hne.
  destruct ts as [|t2 ts2].
  - cbn [numbered_response_from numbered_lines_from] in *.
    pose proof (numbered_line_at_line k t [] Ht (or_introl eq_refl)) as H.
    rewrite app_nil_r in H.
    destruct fuel as [|fuel]; [destruct (numbered_line k t); [contradiction|simpl in Hf; lia]|].
    rewrite (scan_step_match fuel _ _ _ Hne H), scan_nil. reflexivity.
  - change (numbered_response_from k (t :: t2 :: ts2))
      with (numbered_line k t ++ 10%N :: numbered_response_from (S k) (t2 :: ts2)) in *.
    change (numbered_lines_from k (t :: t2 :: ts2))
      with (numbered_line k t :: numbered_lines_from (S k) (t2 :: ts2)).
    rewrite length_app in Hf. cbn [length] in Hf.
    pose proof (numbered_line_at_line k t (10%N :: numbered_response_from (S k) (t2 :: ts2)) Ht
      (or_intror (ex_intro _ _ eq_refl))) as H.
    assert (Hne' : numbered_line k t ++ 10%N :: numbered_response_from (S k) (t2 :: ts2) <> []).
    { intros Hn. apply app_eq_nil in Hn as [Hn _]. contradiction. }
    assert (Hl1 : 1 <= length (numbered_line k t))
      by (destruct (numbered_line k t); [contradiction|simpl; lia]).
    destruct fuel as [|fuel]; [lia|].
    rewrite (scan_step_match fuel _ _ _ Hne' H).
    destruct fuel as [|fuel]; [lia|].
    rewrite scan_step_lf, IH; [reflexivity|exact Hts|lia].
Qed.

Lemma length_numbered_lines_from (k : nat) (ts : list jstring) :
  length (numbered_lines_from k ts) = length ts.
Proof. revert k. induction ts as [|t ts IH]; intros k; simpl; [done|]. rewrite IH. done. Qed.

Lemma strip_numbered_line (k : nat) (t : jstring) :
  js_trim (strip_numbering (numbered_line k t)) = js_trim t.
Proof.
  destruct (js_number_digits k) as [Hd Hne].
  unfold numbered_line, strip_numbering. change (js ". " ++ t) with (46%N :: 32%N :: t).
  rewrite (span_app is_digit _ _ Hd), span_stop by reflexivity.
  cbn [fst snd]. rewrite app_nil_r.
  destruct (js_number k) as [|d ds]; [contradiction|].
  cbv beta iota. rewrite N.eqb_refl.
  assert (H32 : drop_ws (32%N :: t) = drop_ws t).
  { unfold drop_ws. cbn [span]. change (is_ws 32%N) with true. cbv iota.
    destruct (span is_ws t). reflexivity. }
  rewrite H32. apply js_trim_drop_ws.
Qed.

Lemma strip_numbered_lines (k : nat) (ts : list jstring) :
  map (fun m => js_trim (strip_numbering m)) (numbered_lines_from k ts) = map js_trim ts.
Proof.
  revert k. induction ts as [|t ts IH]; intros k; simpl; [done|].
  rewrite strip_numbered_line, IH. done.
Qed.

(** C6 (corrected): for texts that fit on one line and are not blank, the
    response "1. t1\n...\nn. tn" parses to the trimmed texts
    [[trim t1 .. trim tn]]: the numbering is stripped and the texts come back
    unchanged exactly when they carry no surrounding whitespace. *)
Theorem parse_numbered_response (ts : list jstring)
  (Hplain : Forall (fun t => plain_line t = true) ts) :
  parseTranslationResponse (numbered_response ts) (length ts) = map js_trim ts.
Proof.
  destruct ts as [|t ts']; [reflexivity|].
  unfold parseTranslationResponse, match_numbered, numbered_response.
  rewrite (scan_numbered_response (t :: ts') Hplain 1 _ (le_n _)).
  change (numbered_lines_from 1 (t :: ts')) with (numbered_line 1 t :: numbered_lines_from 2 ts').
  cbv beta iota.
  change (numbered_line 1 t :: numbered_lines_from 2 ts') with (numbered_lines_from 1 (t :: ts')).
  rewrite length_numbered_lines_from, Nat.eqb_refl.
  apply strip_numbered_lines.
Qed.

Lemma parse_numbered_response_witness :
  Forall (fun t => plain_line t = true) [js "Hola"; js "Mundo"] /\
  parseTranslationResponse (numbered_response [js "Hola"; js "Mundo"]) 2 = [js "Hola"; js "Mundo"].
Proof.
  assert (Hp : Forall (fun t => plain_line t = true) [js "Hola"; js "Mundo"]).
  { repeat constructor. }
  split; [exact Hp|].
  exact (parse_numbered_response [js "Hola"; js "Mundo"] Hp).
Defined.

(** C6 (counterexample): the one-line response "1. Hola " (a translation
    with a trailing space) parses to "Hola", not to the text verbatim. *)
Lemma parse_numbered_not_verbatim :
  parseTranslationResponse (numbered_response [js "Hola "]) 1 = [js "Hola"] /\
  js "Hola" <> js "Hola ".
Proof. split; [vm_compute; reflexivity|discriminate]. Qed.

(** ** Token estimate *)

Lemma fold_sum_shift (f : jstring -> nat) (l : list jstring) (a : nat) :
  fold_left (fun s t => s + f t) l a = a + fold_left (fun s t => s + f t) l 0.
Proof.
  revert a. induction l as [|t l IH]; intros a; simpl; [lia|].
  rewrite (IH (a + f t)), (IH (f t)). lia.
Qed.

Lemma fold_sum_list (f : jstring -> nat) (l : list jstring) :
  fold_left (fun s t => s + f t) l 0 = sum_list_with f l.
Proof.
  induction l as [|t l IH]; simpl; [done|]. rewrite fold_sum_shift, IH. lia.
Qed.

Lemma ceil_div4_bounds (m : nat) : 2 * m <= 8 * ceil_div4 m <= 2 * m + 6.
Proof.
  unfold ceil_div4. pose proof (Nat.div_mod_eq m 4) as Hd.
  pose proof (Nat.mod_upper_bound m 4 ltac:(lia)) as Hm.
  destruct (Nat.eqb_spec (m mod 4) 0); lia.
Qed.

(** [estimateTokens] of a concatenation is the sum of the estimates: the
    estimate is computed text by text, with no fixed overhead per call. *)
Theorem estimateTokens_app (a b : list jstring) :
  estimateTokens (a ++ b) = estimateTokens a + estimateTokens b.
Proof.
  unfold estimateTokens. rewrite !fold_sum_list, sum_list_with_app, length_app. lia.
Qed.

(** With [C] the total number of code units of the texts and [n] their
    number, the estimate lies between [C/2 + 50 n] and [C/2 + 51.5 n]. *)
Theorem estimateTokens_bounds (texts : list jstring) :
  2 * sum_list_with length texts + 200 * length texts <= 4 * estimateTokens texts /\
  4 * estimateTokens texts <= 2 * sum_list_with length texts + 206 * length texts.
Proof.
  unfold estimateTokens. rewrite fold_sum_list.
  induction texts as [|t ts IH]; simpl; [lia|].
  pose proof (ceil_div4_bounds (length t)). lia.
Qed.

(** ** Batching *)

Lemma make_batches_concat (texts : list jstring) (bs : nat) :
  1 <= bs -> forall fuel i, length texts - i <= fuel ->
  concat (map batch_texts (make_batches_from fuel texts bs i)) = drop i texts.
Proof.
  intros Hbs. induction fuel as [|fuel IH]; intros i Hf; simpl.
  - rewrite drop_ge by lia. done.
  - destruct (Nat.ltb_spec i (length texts)) as [Hi|Hi]; simpl.
    + rewrite IH by lia. unfold js_slice.
      destruct (Nat.le_gt_cases (i + bs) (length texts)).
      * replace (Nat.min (i + bs) (length texts) - i) with bs by lia.
        rewrite <- (drop_drop texts bs i), take_drop. done.
      * replace (Nat.min (i + bs) (length texts) - i) with (length texts - i) by lia.
        rewrite (drop_ge _ (i + bs)) by lia. rewrite app_nil_r.
        apply take_ge. rewrite length_drop. lia.
    + rewrite drop_ge by lia. done.
Qed.

Lemma make_batches_count (texts : list jstring) (bs : nat) :
  1 <= bs -> forall fuel i, length texts - i <= fuel ->
  length (make_batches_from fuel texts bs i) = (length texts - i + bs - 1) / bs.
Proof.
  intros Hbs. induction fuel as [|fuel IH]; intros i Hf; simpl.
  - replace (length texts - i + bs - 1) with (bs - 1) by lia.
    symmetry. apply Nat.div_small. lia.
  - destruct (Nat.ltb_spec i (length texts)) as [Hi|Hi]; simpl.
    + rewrite IH by lia.
      destruct (Nat.le_gt_cases (i + bs) (length texts)).
      * replace (length texts - i + bs - 1) with ((length texts - (i + bs) + bs - 1) + 1 * bs)
          by lia.
        rewrite Nat.div_add by lia. lia.
      * replace (length texts - (i + bs) + bs - 1) with (bs - 1) by lia.
        rewrite Nat.div_small by lia.
        apply (Nat.div_unique _ _ 1 (length texts - i - 1)); lia.
    + replace (length texts - i + bs - 1) with (bs - 1) by lia.
      symmetry. apply Nat.div_small. lia.
Qed.

(** Concatenating the texts of the batches, in order, gives back the input:
    the batches split the input into consecutive pieces, none lost, none
    repeated. *)
Theorem batches_concat (config : TranslationConfig) (texts : list jstring) :
  concat (map batch_texts (batches config texts)) = texts.
Proof.
  unfold batches, make_batches. rewrite make_batches_concat; [done| |lia].
  apply js_or_nat_pos. lia.
Qed.

(** There are ceil(n / batchSize) batches for [n] texts, and every batch
    but the last holds exactly [batchSize] texts ([batchSize] being
    [config.subtitleBatchSize || 5]). *)
Theorem batches_count_and_size (config : TranslationConfig) (texts : list jstring) :
  length (batches config texts) =
    (length texts + eff_batchSize config - 1) / eff_batchSize config /\
  forall j b, batches config texts !! j = Some b -> S j < length (batches config texts) ->
    length (batch_texts b) = eff_batchSize config.
Proof.
  pose proof (eff_batchSize_pos config) as Hbs.
  assert (Hc : length (batches config texts) =
    (length texts + eff_batchSize config - 1) / eff_batchSize config).
  { unfold batches, make_batches. rewrite make_batches_count by lia.
    rewrite Nat.sub_0_r. done. }
  split; [exact Hc|].
  intros j b Hb Hj.
  destruct (batch_props config texts j b Hb) as (Hs & Hr & Hl & _).
  pose proof (batches_lookup texts (eff_batchSize config) Hbs (length texts) 0 j b Hb)
    as (_ & _ & Ht).
  assert (Hlen : length (batch_texts b) =
    Nat.min (startIndex b + eff_batchSize config) (length texts) - startIndex b).
  { rewrite Ht. apply length_js_slice. lia. }
  rewrite Hc in Hj.
  pose proof (Nat.Div0.mul_div_le (length texts + eff_batchSize config - 1)
                (eff_batchSize config)) as Hm.
  assert (Hle : eff_batchSize config * S (S j) <= length texts + eff_batchSize config - 1).
  { etransitivity; [|exact Hm]. apply Nat.mul_le_mono_l. lia. }
  rewrite Hlen, Hs. nia.
Qed.

(** ** Retries that end in a success *)

Lemma total_sleep_app (e1 e2 : list BatchEvent) :
  total_sleep (e1 ++ e2) = total_sleep e1 + total_sleep e2.
Proof. induction e1 as [|[r|ms] e1 IH]; simpl; lia. Qed.

Lemma total_sleep_backoff (a r : nat) :
  total_sleep (flat_map (fun k => [CallModel k; Sleep (2 ^ k * 1000)]) (seq a r)) + 2 ^ a * 1000
  = 2 ^ (a + r) * 1000.
Proof.
  revert a. induction r as [|r IH]; intros a.
  - cbn [seq flat_map total_sleep]. rewrite Nat.add_0_r. done.
  - change (seq a (S r)) with (a :: seq (S a) r). cbn [flat_map app total_sleep].
    replace (a + S r) with (S a + r) by lia. rewrite <- (IH (S a)).
    rewrite Nat.pow_succ_r'. lia.
Qed.

Lemma retry_loop_success (maxR : nat) (call : nat -> list jstring + jstring) (ts : list jstring) :
  forall fuel r0 r, r0 <= r <= maxR -> r0 + fuel = maxR ->
  (forall k, r0 <= k < r -> exists m, call k = inr m) -> call r = inl ts ->
  retry_loop maxR call fuel r0 =
    (flat_map (fun k => [CallModel k; Sleep (2 ^ k * 1000)]) (seq r0 (r - r0)) ++ [CallModel r],
     BatchSucceeded ts).
Proof.
  induction fuel as [|fuel IH]; intros r0 r Hr Hf Hk Hc.
  - assert (r0 = r) by lia. subst r0. rewrite Nat.sub_diag. simpl. rewrite Hc. done.
  - destruct (Nat.eq_dec r0 r) as [->|Hne].
    + rewrite Nat.sub_diag. simpl. rewrite Hc. done.
    + destruct (Hk r0) as [m Hm]; [lia|].
      rewrite (retry_loop_fail_step maxR call fuel r0 m Hm ltac:(lia)).
      rewrite (IH (S r0) r) by (first [lia | exact Hc | intros k Hk'; apply Hk; lia]).
      replace (r - r0) with (S (r - S r0)) by lia. done.
Qed.

(** A batch whose first [r] calls fail and whose call at retry count
    [r <= maxRetries] succeeds is called exactly [r + 1] times, waits
    [2^k] seconds after its [k]-th failure, ends with the translations of
    that call, and spends [(2^r - 1)] seconds in total waiting. *)
Theorem batch_succeeds_after_retries (maxR : nat) (call : nat -> list jstring + jstring)
  (ts : list jstring) (r : nat)
  (Hr : r <= maxR)
  (Hfail : forall k, k < r -> exists m, call k = inr m)
  (Hok : call r = inl ts) :
  processBatchWithRetry maxR call =
    (flat_map (fun k => [CallModel k; Sleep (2 ^ k * 1000)]) (seq 0 r) ++ [CallModel r],
     BatchSucceeded ts) /\
  total_sleep (fst (processBatchWithRetry maxR call)) = (2 ^ r - 1) * 1000.
Proof.
  assert (Hp : processBatchWithRetry maxR call =
    (flat_map (fun k => [CallModel k; Sleep (2 ^ k * 1000)]) (seq 0 r) ++ [CallModel r],
     BatchSucceeded ts)).
  { unfold processBatchWithRetry.
    rewrite (retry_loop_success maxR call ts maxR 0 r) by (first [lia | exact Hok | intros k Hk; apply Hfail; lia]).
    rewrite Nat.sub_0_r. done. }
  split; [exact Hp|]. rewrite Hp. simpl fst. rewrite total_sleep_app. simpl.
  pose proof (total_sleep_backoff 0 r) as H. simpl in H.
  pose proof (Nat.pow_nonzero 2 r ltac:(lia)). rewrite Nat.mul_sub_distr_r. lia.
Qed.

Lemma batch_succeeds_after_retries_witness :
  processBatchWithRetry 2 (fun k => if k =? 0 then inr (js "timeout") else inl [js "Hola"]) =
    ([CallModel 0; Sleep 1000; CallModel 1], BatchSucceeded [js "Hola"]) /\
  total_sleep (fst (processBatchWithRetry 2
    (fun k => if k =? 0 then inr (js "timeout") else inl [js "Hola"]))) = 1000.
Proof.
  destruct (batch_succeeds_after_retries 2
              (fun k => if k =? 0 then inr (js "timeout") else inl [js "Hola"]) [js "Hola"] 1)
    as [H1 H2].
  - lia.
  - intros k Hk. assert (k = 0) as -> by lia. eexists. reflexivity.
  - reflexivity.
  - split; [exact H1|exact H2].
Defined.

(** ** Progress counters and the failed list of a run *)

Lemma map_add_seq (s a m : nat) : map (fun i => s + i) (seq a m) = seq (s + a) m.
Proof.
  revert a. induction m as [|m IH]; intros a; simpl; [done|].
  rewrite IH. do 2 f_equal. lia.
Qed.

Lemma sum_lookup_seq {A} (g : A -> nat) (f : nat -> nat) (L : list A) :
  forall k, (forall j, f (k + j) = match L !! j with Some b => g b | None => 0 end) ->
  sum_list_with f (seq k (length L)) = sum_list_with g L.
Proof.
  induction L as [|b L IH]; intros k Hf; simpl; [done|].
  f_equal.
  - rewrite <- (Nat.add_0_r k), Hf. done.
  - apply IH. intros j. replace (S k + j) with (k + S j) by lia. apply Hf.
Qed.

Lemma sum_length_concat (L : list (list jstring)) :
  sum_list_with length L = length (concat L).
Proof. induction L as [|l L IH]; simpl; [done|]. rewrite length_app, IH. done. Qed.

Section RunCounters.
Variable config : TranslationConfig.
Variables texts : list jstring.
Variables src tgt provider model : jstring.
Variable gen : Oracle.

Local Abbreviation n := (length texts).
Local Abbreviation bts := (batches config texts).
Local Abbreviation fin := (finish_nth config texts src tgt provider model gen).
Local Abbreviation batch_size_at := (batch_size_at config texts).
Local Abbreviation batch_failed_at := (batch_failed_at config texts provider model gen).

Lemma finish_nth_counters j st :
  length (results st) = n ->
  processedSubtitles (fin st j) = processedSubtitles st + batch_size_at j /\
  failed (fin st j) = failed st ++ batch_failed_at j.
Proof.
  intros Hl. unfold finish_nth, batch_size_at, batch_failed_at.
  destruct (bts !! j) as [b|] eqn:Hb; [|rewrite app_nil_r; split; [lia|done]].
  destruct (batch_props config texts j b Hb) as (_ & Hr & _).
  destruct (finish_batch_spec src tgt b (snd (batch_run config provider model gen j b)) st)
    as (_ & _ & Hf & Hp); [lia|].
  split; [exact Hp|]. rewrite Hf.
  destruct (snd (batch_run config provider model gen j b)); done.
Qed.

Lemma fold_finish_counters l st :
  length (results st) = n ->
  processedSubtitles (fold_left fin l st) = processedSubtitles st + sum_list_with batch_size_at l /\
  failed (fold_left fin l st) = failed st ++ concat (map batch_failed_at l).
Proof.
  revert st. induction l as [|j l IH]; intros st Hl; simpl.
  - rewrite app_nil_r. split; [lia|done].
  - destruct (finish_nth_counters j st Hl) as [Hp Hf].
    destruct (IH (fin st j)) as [Hp' Hf']; [apply finish_nth_length; exact Hl|].
    rewrite Hp', Hf', Hp, Hf, app_assoc. split; [lia|done].
Qed.

Lemma sum_batch_sizes : sum_list_with batch_size_at (seq 0 (length bts)) = n.
Proof.
  rewrite (sum_lookup_seq (fun b => length (batch_texts b))).
  - rewrite <- (batches_concat config texts) at 2.
    rewrite <- sum_length_concat. clear. induction bts as [|b L IH]; simpl; [done|]. lia.
  - intros j. simpl. reflexivity.
Qed.

Lemma run_schedule_effective schedule :
  valid_schedule config texts schedule ->
  run_translateBatch config texts src tgt provider model gen schedule =
    fold_left fin schedule (initial_state texts).
Proof.
  intros Hs. unfold run_translateBatch.
  destruct (Nat.eqb_spec (Nat.min (eff_concurrency config) (length bts)) 0) as [H0|]; [|done].
  assert (Hc : 1 <= eff_concurrency config) by (apply js_or_nat_pos; lia).
  assert (length bts = 0) as Hz by lia.
  unfold valid_schedule in Hs. rewrite Hz in Hs. simpl in Hs.
  apply Permutation_sym, Permutation_nil in Hs. subst schedule. done.
Qed.

Lemma batch_failed_at_in j i :
  In i (batch_failed_at j) <->
  exists b msg, bts !! j = Some b /\ startIndex b <= i < startIndex b + length (batch_texts b) /\
    snd (batch_run config provider model gen j b) = BatchFailed msg.
Proof.
  unfold batch_failed_at. destruct (bts !! j) as [b|] eqn:Hb.
  - destruct (snd (batch_run config provider model gen j b)) as [ts|msg] eqn:He.
    + split; [intros []|]. intros (b' & msg & Hb' & _ & He'). injection Hb' as <-.
      rewrite He in He'. discriminate.
    + rewrite map_add_seq, Nat.add_0_r, in_seq. split.
      * intros Hi. exists b, msg. done.
      * intros (b' & msg' & Hb' & Hi & _). injection Hb' as <-. lia.
  - split; [intros []|]. intros (b' & msg & Hb' & _). discriminate.
Qed.

Lemma NoDup_batch_failed l :
  List.NoDup l -> NoDup (concat (map batch_failed_at l)).
Proof.
  induction 1 as [|j l Hj Hl IH]; simpl; [constructor|].
  apply NoDup_app. split; [|split; [|exact IH]].
  - unfold batch_failed_at. destruct (bts !! j) as [b|]; [|constructor].
    destruct (snd _); [constructor|]. rewrite map_add_seq. apply NoDup_seq.
  - intros i Hi Hi'. apply list_elem_of_In in Hi, Hi'.
    apply in_concat in Hi' as (f & Hf & Hi'). apply in_map_iff in Hf as (j' & <- & Hj').
    apply batch_failed_at_in in Hi as (b & m & Hb & Hr & _).
    apply batch_failed_at_in in Hi' as (b' & m' & Hb' & Hr' & _).
    assert (j <> j') by (intros ->; contradiction).
    exact (batch_disjoint config texts j j' b b' i Hb Hb' ltac:(assumption) Hr Hr').
Qed.

End RunCounters.

(** When [translateBatch] resolves, its progress counter [processedSubtitles]
    (the [completed] field of the last progress report) equals the number
    of input texts, whichever batches failed and in whichever order they
    ended. *)
Theorem translateBatch_all_processed (config : TranslationConfig) (texts : list jstring)
  (src tgt provider model : jstring) (gen : Oracle) (schedule : list nat)
  (Hsched : valid_schedule config texts schedule) :
  processedSubtitles (run_translateBatch config texts src tgt provider model gen schedule)
  = length texts.
Proof.
  rewrite run_schedule_effective by exact Hsched.
  destruct (fold_finish_counters config texts src tgt provider model gen schedule
              (initial_state texts)) as [Hp _]; [apply length_replicate|].
  rewrite Hp. simpl.
  unfold valid_schedule in Hsched.
  rewrite Hsched. apply sum_batch_sizes.
Qed.

Lemma translateBatch_all_processed_witness :
  valid_schedule sample_config sample_texts [1; 0] /\
  processedSubtitles (run_translateBatch sample_config sample_texts (js "en") (js "es")
                        (js "openai") (js "gpt-4o-mini") aborted_gen [1; 0]) = 3.
Proof.
  assert (Hs : valid_schedule sample_config sample_texts [1; 0]).
  { unfold valid_schedule. vm_compute. apply perm_swap. }
  split; [exact Hs|].
  exact (translateBatch_all_processed sample_config sample_texts (js "en") (js "es")
           (js "openai") (js "gpt-4o-mini") aborted_gen [1; 0] Hs).
Defined.

(** When [translateBatch] resolves, an index is in the [failed] list exactly
    when it belongs to a batch whose retries ran out, and no index is in the
    list twice (so the count in the final warning is the number of failed
    texts). *)
Theorem translateBatch_failed_list (config : TranslationConfig) (texts : list jstring)
  (src tgt provider model : jstring) (gen : Oracle) (schedule : list nat)
  (Hsched : valid_schedule config texts schedule) :
  (forall i, In i (failed (run_translateBatch config texts src tgt provider model gen schedule)) <->
     exists j b msg, batches config texts !! j = Some b /\
       startIndex b <= i < startIndex b + length (batch_texts b) /\
       snd (batch_run config provider model gen j b) = BatchFailed msg) /\
  NoDup (failed (run_translateBatch config texts src tgt provider model gen schedule)).
Proof.
  rewrite run_schedule_effective by exact Hsched.
  destruct (fold_finish_counters config texts src tgt provider model gen schedule
              (initial_state texts)) as [_ Hf]; [apply length_replicate|].
  rewrite Hf. simpl. split.
  - intros i. rewrite in_concat. split.
    + intros (f & Hf' & Hi). apply in_map_iff in Hf' as (j & <- & _).
      apply batch_failed_at_in in Hi as (b & msg & Hb & Hr & He). exists j, b, msg. done.
    + intros (j & b & msg & Hb & Hr & He). exists (batch_failed_at config texts provider model gen j).
      split.
      * apply in_map. apply (Permutation_in _ (Permutation_sym Hsched)).
        apply in_seq. apply lookup_lt_Some in Hb. lia.
      * apply batch_failed_at_in. exists b, msg. done.
  - apply NoDup_batch_failed.
    apply (Permutation_NoDup (Permutation_sym Hsched)). apply seq_NoDup.
Qed.

Lemma translateBatch_failed_list_witness :
  valid_schedule sample_config sample_texts [1; 0] /\
  NoDup (failed (run_translateBatch sample_config sample_texts (js "en") (js "es")
                   (js "openai") (js "gpt-4o-mini") aborted_gen [1; 0])).
Proof.
  assert (Hs : valid_schedule sample_config sample_texts [1; 0]).
  { unfold valid_schedule. vm_compute. apply perm_swap. }
  split; [exact Hs|].
  exact (proj2 (translateBatch_failed_list sample_config sample_texts (js "en") (js "es")
           (js "openai") (js "gpt-4o-mini") aborted_gen [1; 0] Hs)).
Defined.

Lemma end_unit_nonempty (src tgt : jstring) (b : Batch) (e : BatchEnd) (k : nat) :
  translatedText (end_unit src tgt b e k) <> [].
Proof.
  destruct e as [ts|m]; simpl.
  - destruct (ts !! k) as [[|c s]|]; simpl; try discriminate;
      unfold no_response_marker; simpl; discriminate.
  - unfold failure_marker. simpl. discriminate.
Qed.

(** When [translateBatch] resolves, no slot of the array is left a hole and
    no [translatedText] is the empty string, so a caller's fallback
    [translationResults[index]?.translatedText || entry.text] never applies
    to an index below the input's length. *)
Theorem translateBatch_no_empty_slot (config : TranslationConfig) (texts : list jstring)
  (src tgt provider model : jstring) (gen : Oracle) (schedule : list nat)
  (Hsched : valid_schedule config texts schedule) :
  forall i, i < length texts ->
  exists u, translateBatch config texts src tgt provider model gen schedule !! i = Some (Some u) /\
    translatedText u <> [].
Proof.
  intros i Hi.
  destruct (batch_cover config texts i Hi) as (j & b & Hb & Hr).
  unfold translateBatch.
  rewrite (run_final config texts src tgt provider model gen schedule j b i Hsched Hb Hr).
  eexists. split; [reflexivity|]. apply end_unit_nonempty.
Qed.

Lemma translateBatch_no_empty_slot_witness :
  valid_schedule sample_config sample_texts [0; 1] /\
  exists u, translateBatch sample_config sample_texts (js "en") (js "es")
              (js "openai") (js "gpt-4o-mini") aborted_gen [0; 1] !! 2 = Some (Some u) /\
    translatedText u <> [].
Proof.
  assert (Hs : valid_schedule sample_config sample_texts [0; 1]).
  { unfold valid_schedule. vm_compute. reflexivity. }
  split; [exact Hs|].
  apply (translateBatch_no_empty_slot sample_config sample_texts (js "en") (js "es")
           (js "openai") (js "gpt-4o-mini") aborted_gen [0; 1] Hs 2).
  simpl. lia.
Defined.

(** ** Shape of the parsed translations *)

Lemma span_split (p : N -> bool) (s : jstring) : fst (span p s) ++ snd (span p s) = s.
Proof.
  induction s as [|c s IH]; simpl; [done|].
  destruct (p c); [|done]. destruct (span p s) as [a b]. simpl in *. rewrite IH. done.
Qed.

Lemma drop_ws_starts (s : jstring) : starts_non_ws (drop_ws s).
Proof.
  pose proof (span_rest_stops is_ws s) as H. unfold drop_ws.
  destruct (snd (span is_ws s)) as [|c r]; simpl in *; [done|].
  destruct (is_ws c); [|done]. destruct (span is_ws r). discriminate.
Qed.

Lemma drop_ws_fix (s : jstring) : starts_non_ws s -> drop_ws s = s.
Proof. destruct s as [|c r]; simpl; [done|]. unfold drop_ws. simpl. intros ->. done. Qed.

Lemma js_trim_idem (s : jstring) : js_trim (js_trim s) = js_trim s.
Proof.
  unfold js_trim. set (a := drop_ws s). set (b := drop_ws (rev a)).
  assert (Hb : drop_ws (rev b) = rev b).
  { apply drop_ws_fix.
    pose proof (span_split is_ws (rev a)) as Hs. fold (drop_ws (rev a)) in Hs. fold b in Hs.
    assert (Ha : a = rev b ++ rev (fst (span is_ws (rev a)))).
    { rewrite <- rev_app_distr, Hs, rev_involutive. done. }
    pose proof (drop_ws_starts s) as Hst. fold a in Hst.
    destruct (rev b) as [|c r]; simpl; [done|]. rewrite Ha in Hst. exact Hst. }
  rewrite Hb, rev_involutive. unfold b at 1. rewrite drop_ws_idem. done.
Qed.

Lemma parse_error_marker_trimmed : js_trim parse_error_marker = parse_error_marker.
Proof. vm_compute. reflexivity. Qed.

(** Every string [parseTranslationResponse] returns is trimmed: it neither
    starts nor ends with whitespace, whichever of the three strategies
    produced it. *)
Theorem parse_results_trimmed (response : jstring) (expectedCount : nat) :
  Forall (fun s => js_trim s = s) (parseTranslationResponse response expectedCount).
Proof.
  assert (Hfb : Forall (fun s => js_trim s = s) (parse_fallback response expectedCount)).
  { assert (Hl : Forall (fun s => js_trim s = s) (fallback_lines response)).
    { apply List.Forall_forall. intros x Hx. unfold fallback_lines in Hx.
      apply filter_In in Hx as [Hx _]. apply in_map_iff in Hx as (y & <- & _).
      apply js_trim_idem. }
    unfold parse_fallback.
    destruct (expectedCount <=? length (fallback_lines response)).
    - apply Forall_take. exact Hl.
    - apply List.Forall_forall. intros x Hx. apply in_map_iff in Hx as (i & <- & _).
      destruct (fallback_lines response !! i) as [[|c s]|] eqn:Hi; simpl;
        try exact parse_error_marker_trimmed.
      rewrite List.Forall_forall in Hl. apply Hl. apply list_elem_of_lookup_2 in Hi.
      apply list_elem_of_In. exact Hi. }
  unfold parseTranslationResponse.
  destruct (match_numbered response) as [ms|]; [|exact Hfb].
  destruct (length ms =? expectedCount); [|exact Hfb].
  apply List.Forall_forall. intros x Hx. apply in_map_iff in Hx as (m & <- & _).
  apply js_trim_idem.
Qed.

Lemma parse_length (response : jstring) (expectedCount : nat) :
  length (parseTranslationResponse response expectedCount) = expectedCount.
Proof.
  unfold parseTranslationResponse.
  destruct (match_numbered response) as [ms|]; [|apply parse_fallback_length].
  destruct (Nat.eqb_spec (length ms) expectedCount); [|apply parse_fallback_length].
  rewrite length_map. done.
Qed.

(** When [translateSubtitleBatch] resolves, it resolves with exactly one
    string per input text, each of them trimmed, so the scheduler's
    [translatedTexts[i]] is defined for every position of the batch. *)
Theorem translateSubtitleBatch_shape (providers : Providers) (texts : list jstring)
  (provider model : jstring) (gen : GenOutcome) (translated : list jstring)
  (Hok : translateSubtitleBatch providers texts provider model gen = inl translated) :
  length translated = length texts /\ Forall (fun s => js_trim s = s) translated.
Proof.
  unfold translateSubtitleBatch in Hok.
  destruct (providers provider) as [pc|]; [|discriminate].
  destruct (createModel_ok provider pc model) as (client & Hc & _). rewrite Hc in Hok.
  destruct gen as [text|[nm msg|]]; [|destruct (js_eqb nm (js "AbortError")); discriminate|discriminate].
  injection Hok as <-. split; [apply parse_length|apply parse_results_trimmed].
Qed.

Lemma translateSubtitleBatch_shape_witness :
  translateSubtitleBatch (providers sample_config) [js "Hello"; js "World"] (js "openai")
    (js "gpt-4o-mini") (Generated (js " 1. Hola  ")) =
    inl [js "1. Hola"; parse_error_marker] /\
  length [js "1. Hola"; parse_error_marker] = 2.
Proof.
  assert (H : translateSubtitleBatch (providers sample_config) [js "Hello"; js "World"]
                (js "openai") (js "gpt-4o-mini") (Generated (js " 1. Hola  ")) =
              inl [js "1. Hola"; parse_error_marker]) by (vm_compute; reflexivity).
  split; [exact H|].
  exact (proj1 (translateSubtitleBatch_shape (providers sample_config) [js "Hello"; js "World"]
                  (js "openai") (js "gpt-4o-mini") (Generated (js " 1. Hola  "))
                  [js "1. Hola"; parse_error_marker] H)).
Defined.

(** ** The prompt's entry list read back by the parser *)

Lemma imap_numbered_lines (k : nat) (ts : list jstring) :
  imap (fun i t => numbered_line (i + k) t) ts = numbered_lines_from k ts.
Proof.
  revert k. induction ts as [|t ts IH]; intros k; [done|].
  rewrite imap_cons. simpl. f_equal. rewrite <- IH. apply imap_ext.
  intros i x _. simpl. f_equal. lia.
Qed.

Lemma join_numbered_lines (k : nat) (ts : list jstring) :
  js_join [10%N] (numbered_lines_from k ts) = numbered_response_from k ts.
Proof.
  revert k. induction ts as [|t ts IH]; intros k; [done|].
  destruct ts as [|t' ts'].
  - done.
  - transitivity (numbered_line k t ++ [10%N] ++ js_join [10%N] (numbered_lines_from (S k) (t' :: ts')));
      [reflexivity|].
    rewrite IH. reflexivity.
Qed.

Lemma textList_numbered_response (ts : list jstring) :
  createSubtitlePrompt_textList ts = numbered_response ts.
Proof.
  unfold createSubtitlePrompt_textList, numbered_response.
  rewrite <- join_numbered_lines, <- imap_numbered_lines. reflexivity.
Qed.

Lemma numbered_response_last (k : nat) (ts0 : list jstring) (t : jstring) :
  exists X, numbered_response_from k (ts0 ++ [t]) = X ++ t.
Proof.
  revert k. induction ts0 as [|a ts0 IH]; intros k.
  - exists (js_number k ++ js ". "). change ([] ++ [t]) with [t].
    cbn [numbered_response_from]. unfold numbered_line. rewrite app_assoc. reflexivity.
  - destruct (IH (S k)) as [X HX]. exists (numbered_line k a ++ 10%N :: X).
    change ((a :: ts0) ++ [t]) with (a :: (ts0 ++ [t])).
    destruct (ts0 ++ [t]) as [|u us] eqn:Hu; [destruct ts0; discriminate|].
    transitivity (numbered_line k a ++ 10%N :: numbered_response_from (S k) (u :: us));
      [reflexivity|].
    rewrite HX, <- app_assoc. reflexivity.
Qed.

Lemma js_trim_numbered_response (ts : list jstring) :
  Forall (fun t => plain_line t = true /\ js_trim t = t) ts ->
  js_trim (numbered_response ts) = numbered_response ts.
Proof.
  intros Hall. destruct ts as [|t0 ts0]; [reflexivity|].
  assert (Hhead : exists rest, numbered_response (t0 :: ts0) = 49%N :: rest).
  { assert (H1 : js_number 1 = [49%N]) by reflexivity.
    unfold numbered_response. destruct ts0 as [|t1 ts1]; cbn [numbered_response_from];
      unfold numbered_line; rewrite H1; eexists; reflexivity. }
  destruct (exists_last (l := t0 :: ts0) ltac:(discriminate)) as (ts & t & Hts).
  rewrite Hts in Hall |- *.
  apply Forall_app in Hall as [_ Hlast]. inversion Hlast as [|? ? [Hp Ht] _]; subst.
  destruct (numbered_response_last 1 ts t) as [X HX].
  unfold numbered_response in *. rewrite Hts in Hhead. destruct Hhead as [rest Hrest].
  unfold js_trim. rewrite (drop_ws_fix (numbered_response_from 1 (ts ++ [t])))
    by (rewrite Hrest; reflexivity).
  rewrite HX, rev_app_distr.
  assert (Hrt : starts_non_ws (rev t)).
  { rewrite <- Ht. unfold js_trim. rewrite rev_involutive. apply drop_ws_starts. }
  assert (Hne : t <> []) by (intros ->; discriminate).
  destruct (rev t) as [|c r] eqn:Hr; [apply (f_equal (@rev N)) in Hr; rewrite rev_involutive in Hr; contradiction|].
  rewrite drop_ws_fix by exact Hrt. rewrite <- Hr, rev_app_distr, !rev_involutive. done.
Qed.

(** If the model answers with exactly the numbered entry list of the prompt
    [createSubtitlePrompt] builds (texts that fit on one line, are not blank
    and carry no surrounding whitespace), [translateSubtitleBatch] resolves
    with the texts themselves: the prompt's format and the parser agree. *)
Theorem prompt_entries_round_trip (providers : Providers) (texts : list jstring)
  (provider model : jstring) (pc : AIProvider)
  (Hp : providers provider = Some pc)
  (Htexts : Forall (fun t => plain_line t = true /\ js_trim t = t) texts) :
  translateSubtitleBatch providers texts provider model
    (Generated (createSubtitlePrompt_textList texts)) = inl texts.
Proof.
  unfold translateSubtitleBatch. rewrite Hp.
  destruct (createModel_ok provider pc model) as (client & -> & _).
  rewrite textList_numbered_response, js_trim_numbered_response by exact Htexts.
  f_equal.
  assert (Hplain : Forall (fun t => plain_line t = true) texts).
  { eapply Forall_impl; [exact Htexts|]. intros t [H _]. exact H. }
  destruct texts as [|t ts']; [reflexivity|].
  unfold parseTranslationResponse, match_numbered, numbered_response.
  rewrite (scan_numbered_response (t :: ts') Hplain 1 _ (le_n _)).
  change (numbered_lines_from 1 (t :: ts')) with (numbered_line 1 t :: numbered_lines_from 2 ts').
  cbv beta iota.
  change (numbered_line 1 t :: numbered_lines_from 2 ts') with (numbered_lines_from 1 (t :: ts')).
  rewrite length_numbered_lines_from, Nat.eqb_refl, strip_numbered_lines.
  rewrite <- (map_id (t :: ts')) at 2. apply map_ext_in.
  intros x Hx. rewrite List.Forall_forall in Htexts. apply Htexts. exact Hx.
Qed.

Lemma prompt_entries_round_trip_witness :
  createSubtitlePrompt_textList [js "Hello"; js "World"] = js "1. Hello
2. World" /\
  translateSubtitleBatch (providers sample_config) [js "Hello"; js "World"] (js "openai")
    (js "gpt-4o-mini") (Generated (createSubtitlePrompt_textList [js "Hello"; js "World"]))
  = inl [js "Hello"; js "World"].
Proof.
  split; [vm_compute; reflexivity|].
  apply (prompt_entries_round_trip (providers sample_config) [js "Hello"; js "World"]
           (js "openai") (js "gpt-4o-mini") sample_provider).
  - reflexivity.
  - repeat constructor; vm_compute; reflexivity.
Defined.

(** ** translateSingle, testConnection and validateRequest *)

Lemma js_or_nonempty (a : option jstring) (b : jstring) : b <> [] -> js_or a b <> [].
Proof. destruct a as [[|c s]|]; simpl; try done; discriminate. Qed.

(** When [translateSingle] resolves, its unit carries the request's text and
    languages, and its [translatedText] is never empty: an empty parsed
    entry falls back to the whole trimmed answer, and a blank answer parses
    to the error marker. *)
Theorem translateSingle_result (providers : Providers) (request : TranslationRequest)
  (gen : GenOutcome) (u : TranslationResult)
  (Hok : translateSingle providers request gen = inl u) :
  originalText u = request_text request /\
  sourceLanguage u = request_sourceLanguage request /\
  targetLanguage u = request_targetLanguage request /\
  translatedText u <> [].
Proof.
  unfold translateSingle in Hok.
  destruct (providers (request_provider request)) as [pc|]; [|discriminate].
  destruct (createModel_ok (request_provider request) pc (request_model request)) as (c & Hc & _).
  rewrite Hc in Hok.
  destruct gen as [text|[nm msg|]];
    [|destruct (js_eqb nm (js "AbortError")); discriminate|discriminate].
  injection Hok as <-. simpl. split; [done|]. split; [done|]. split; [done|].
  destruct (js_trim text) as [|c0 s0] eqn:Ht.
  - assert (Hp : parseTranslationResponse [] 1 = [parse_error_marker]) by (vm_compute; reflexivity).
    rewrite Hp. simpl. unfold parse_error_marker. simpl. discriminate.
  - apply js_or_nonempty. discriminate.
Qed.

Lemma translateSingle_result_witness :
  translateSingle (providers sample_config)
    (test_request (js "openai") (js "gpt-4o-mini")) (Generated (js "1. Hola")) =
  inl {| originalText := js "Hello, world!"; translatedText := js "Hola";
         sourceLanguage := js "eng"; targetLanguage := js "spa" |} /\
  js "Hola" <> [].
Proof.
  assert (H : translateSingle (providers sample_config)
    (test_request (js "openai") (js "gpt-4o-mini")) (Generated (js "1. Hola")) =
    inl {| originalText := js "Hello, world!"; translatedText := js "Hola";
           sourceLanguage := js "eng"; targetLanguage := js "spa" |}) by (vm_compute; reflexivity).
  split; [exact H|].
  exact (proj2 (proj2 (proj2 (translateSingle_result (providers sample_config)
           (test_request (js "openai") (js "gpt-4o-mini")) (Generated (js "1. Hola")) _ H)))).
Defined.

(** [testConnection] reports success exactly when the provider is in the
    configuration and the model call resolves, whatever text it resolves
    with; otherwise it reports failure with the message [translateSingle]
    threw. *)
Theorem testConnection_success_iff (providers : Providers) (provider model : jstring)
  (gen : GenOutcome) :
  (fst (testConnection providers provider model gen) = true <->
     providers provider <> None /\ exists text, gen = Generated text) /\
  (snd (testConnection providers provider model gen) = None <->
     fst (testConnection providers provider model gen) = true).
Proof.
  unfold testConnection, translateSingle. simpl.
  destruct (providers provider) as [pc|]; simpl.
  - destruct (createModel_ok provider pc model) as (c & -> & _).
    destruct gen as [text|[nm msg|]].
    + simpl. split; [split; [intros _; split; [discriminate|eauto]|done]|done].
    + destruct (js_eqb nm (js "AbortError")); simpl;
        (split; [split; [discriminate|intros [_ [t Ht]]; discriminate]|split; discriminate]).
    + simpl. split; [split; [discriminate|intros [_ [t Ht]]; discriminate]|split; discriminate].
  - split; [split; [discriminate|intros [H _]; contradiction]|split; discriminate].
Qed.

(** For a request [validateRequest] accepts, [translateSingle] fails only
    through the model call: whenever the call resolves, the translation
    resolves too. *)
Theorem validated_request_translates (providers : Providers) (request : TranslationRequest)
  (Hvalid : validateRequest providers request = (true, None)) (text : jstring) :
  exists u, translateSingle providers request (Generated text) = inl u /\
    originalText u = request_text request.
Proof.
  assert (Hp : exists pc, providers (request_provider request) = Some pc).
  { unfold validateRequest in Hvalid.
    repeat (destruct (js_falsy _); [discriminate|]).
    destruct (js_eqb _ _); [discriminate|].
    repeat (destruct (js_falsy _); [discriminate|]).
    destruct (providers (request_provider request)) as [pc|]; [eauto|discriminate]. }
  destruct Hp as [pc Hp].
  unfold translateSingle. rewrite Hp.
  destruct (createModel_ok (request_provider request) pc (request_model request)) as (c & -> & _).
  eexists. split; reflexivity.
Qed.

Lemma validated_request_translates_witness :
  validateRequest (providers sample_config) (test_request (js "openai") (js "gpt-4o-mini"))
    = (true, None) /\
  exists u, translateSingle (providers sample_config)
              (test_request (js "openai") (js "gpt-4o-mini")) (Generated (js "1. Hola")) = inl u /\
    originalText u = js "Hello, world!".
Proof.
  assert (H : validateRequest (providers sample_config)
                (test_request (js "openai") (js "gpt-4o-mini")) = (true, None))
    by (vm_compute; reflexivity).
  split; [exact H|].
  exact (validated_request_translates (providers sample_config)
           (test_request (js "openai") (js "gpt-4o-mini")) H (js "1. Hola")).
Defined.

(** ** The parsed translations are single lines *)

Lemma span_fst_all (p : N -> bool) (s : jstring) : forallb p (fst (span p s)) = true.
Proof.
  induction s as [|c s IH]; simpl; [done|].
  destruct (p c) eqn:Hc; [|done]. destruct (span p s) as [a b]. simpl in *. rewrite Hc. done.
Qed.

Lemma Forall_drop_ws (P : N -> Prop) (s : jstring) : Forall P s -> Forall P (drop_ws s).
Proof.
  intros H. rewrite <- (span_split is_ws s) in H. apply Forall_app in H as [_ H]. exact H.
Qed.

Lemma Forall_js_trim (P : N -> Prop) (s : jstring) : Forall P s -> Forall P (js_trim s).
Proof.
  intros H. unfold js_trim. apply Forall_rev, Forall_drop_ws, Forall_rev, Forall_drop_ws, H.
Qed.

Lemma forallb_Forall_neg (s : jstring) :
  forallb (fun c => negb (is_line_terminator c)) s = true ->
  Forall (fun c => is_line_terminator c = false) s.
Proof.
  intros H. apply List.Forall_forall. intros c Hc. rewrite forallb_forall in H.
  apply negb_true_iff, H, Hc.
Qed.

Lemma dot_plus_eol_line (x : jstring) (mr : jstring * jstring) :
  dot_plus_eol x = Some mr -> forallb (fun c => negb (is_line_terminator c)) (fst mr) = true.
Proof.
  unfold dot_plus_eol. destruct x as [|c s]; [discriminate|].
  destruct (is_line_terminator c); [discriminate|].
  intros H. injection H as <-.
  exact (span_fst_all (fun c => negb (is_line_terminator c)) (c :: s)).
Qed.

Lemma ws_backtrack_line (k : nat) (w rest : jstring) (k' : nat) (m r : jstring) :
  ws_backtrack k w rest = Some (k', (m, r)) ->
  forallb (fun c => negb (is_line_terminator c)) m = true.
Proof.
  induction k as [|k IH]; cbn [ws_backtrack];
    destruct (dot_plus_eol (drop _ w ++ rest)) as [[m' r']|] eqn:Hd; intros H.
  - injection H as _ <- _. exact (dot_plus_eol_line _ _ Hd).
  - discriminate.
  - injection H as _ <- _. exact (dot_plus_eol_line _ _ Hd).
  - exact (IH H).
Qed.

Lemma strip_match_line (s m r : jstring) :
  numbered_line_at s = Some (m, r) ->
  Forall (fun c => is_line_terminator c = false) (strip_numbering m).
Proof.
  unfold numbered_line_at. pose proof (span_fst_all is_digit s) as Hds.
  destruct (span is_digit s) as [ds t]. simpl in Hds.
  destruct ds as [|d ds']; [discriminate|]. destruct t as [|c t']; [discriminate|].
  destruct (N.eqb_spec c 46); [subst c|discriminate].
  pose proof (span_fst_all is_ws t') as Hw.
  destruct (span is_ws t') as [w rest]. simpl in Hw.
  destruct (ws_backtrack (length w) w rest) as [[k [m' r']]|] eqn:Hb; [|discriminate].
  intros H. injection H as <- <-.
  apply ws_backtrack_line in Hb.
  unfold strip_numbering.
  change (d :: ds' ++ 46%N :: take k w ++ m') with ((d :: ds') ++ 46%N :: take k w ++ m').
  rewrite (span_app is_digit (d :: ds') (46%N :: take k w ++ m') Hds).
  rewrite (span_stop is_digit 46%N (take k w ++ m')) by reflexivity. simpl.
  unfold drop_ws.
  assert (Htk : forallb is_ws (take k w) = true).
  { apply forallb_forall. intros x Hx. rewrite forallb_forall in Hw.
    apply Hw. rewrite <- (take_drop k w). apply in_or_app. left. exact Hx. }
  rewrite (span_app is_ws (take k w) m' Htk). simpl.
  apply Forall_drop_ws, forallb_Forall_neg, Hb.
Qed.

Lemma scan_lines (fuel : nat) :
  forall bol s, Forall (fun m => Forall (fun c => is_line_terminator c = false) (strip_numbering m))
                  (scan_numbered fuel bol s).
Proof.
  induction fuel as [|fuel IH]; intros bol s; simpl; [constructor|].
  destruct s as [|c s']; [constructor|].
  destruct (if bol then numbered_line_at (c :: s') else None) as [[m r]|] eqn:Hm; [|apply IH].
  constructor; [|apply IH].
  destruct bol; [|discriminate]. exact (strip_match_line _ _ _ Hm).
Qed.

Lemma js_split_pieces (sep : N) (s : jstring) :
  Forall (fun piece => Forall (fun c => c <> sep) piece) (js_split sep s).
Proof.
  induction s as [|c s IH]; simpl; [repeat constructor|].
  destruct (N.eqb_spec c sep); [constructor; [constructor|exact IH]|].
  destruct (js_split sep s) as [|p ps]; [repeat constructor; exact n|].
  inversion IH as [|? ? Hp Hps]; subst. constructor; [constructor; [exact n|exact Hp]|exact Hps].
Qed.

(** No string [parseTranslationResponse] returns contains a line feed, so
    a translation never spans several subtitle lines: strategy 1 keeps what
    [(.+)$] matched, strategy 2 splits on ['\n'], and the error marker is a
    single line. *)
Theorem parse_results_single_line (response : jstring) (expectedCount : nat) :
  Forall (fun s => Forall (fun c => c <> 10%N) s) (parseTranslationResponse response expectedCount).
Proof.
  assert (Hfb : Forall (fun s => Forall (fun c => c <> 10%N) s) (parse_fallback response expectedCount)).
  { assert (Hl : Forall (fun s => Forall (fun c => c <> 10%N) s) (fallback_lines response)).
    { apply List.Forall_forall. intros x Hx. unfold fallback_lines in Hx.
      apply filter_In in Hx as [Hx _]. apply in_map_iff in Hx as (y & <- & Hy).
      apply Forall_js_trim. pose proof (js_split_pieces 10%N response) as H.
      rewrite List.Forall_forall in H. apply H, Hy. }
    unfold parse_fallback.
    destruct (expectedCount <=? length (fallback_lines response)).
    - apply Forall_take. exact Hl.
    - apply List.Forall_forall. intros x Hx. apply in_map_iff in Hx as (i & <- & _).
      destruct (fallback_lines response !! i) as [[|c s]|] eqn:Hi; simpl.
      1,3: unfold parse_error_marker; vm_compute; repeat constructor; discriminate.
      rewrite List.Forall_forall in Hl. apply Hl. apply list_elem_of_lookup_2 in Hi.
      apply list_elem_of_In. exact Hi. }
  unfold parseTranslationResponse.
  destruct (match_numbered response) as [ms|] eqn:Hms; [|exact Hfb].
  destruct (length ms =? expectedCount); [|exact Hfb].
  assert (Hall : Forall (fun m => Forall (fun c => is_line_terminator c = false) (strip_numbering m)) ms).
  { unfold match_numbered in Hms. pose proof (scan_lines (length response) true response) as H.
    destruct (scan_numbered (length response) true response); [discriminate|].
    injection Hms as <-. exact H. }
  apply List.Forall_forall. intros x Hx. apply in_map_iff in Hx as (m & <- & Hm).
  rewrite List.Forall_forall in Hall. specialize (Hall m Hm).
  apply Forall_js_trim. eapply Forall_impl; [exact Hall|].
  intros c Hc ->. discriminate.
Qed.
